(** * Initiative tracker: the session state engine

    A shallow embedding of the state engine of the initiative tracker
    component (the [InitiativeTracker] variant with phase cell states):
    the persisted-state loader and its repair pass, the "next active cell"
    scan, the three cell transitions and the queries used for rendering.

    Conventions of the embedding.
    - Row and column indices are JavaScript numbers in the source; here they
      are mathematical integers ([Z]).  The engine is written over [Z]; the
      one operation on numbers that is not exact on doubles, [+ 1], is also
      given as the source computes it ([jsSucc]), with the scan that uses it
      ([scanOnDoubles]).  The two scans agree on safe integers
      ([scanOnDoubles_exact]); NaN, infinities and fractions are outside the
      model.
    - [values] is a plain object used as a dictionary with string keys; it
      is a [gmap string PhaseCellState].  The only place that enumerates the
      entries ([Object.entries]) computes results that do not depend on the
      enumeration order.  An assignment [out[k] = v] under the key
      [__proto__] on an object that has no such own property reaches the
      prototype setter, which ignores a string: [migrateValues] models that.
    - The text kept in session storage is abstracted to the JSON document it
      denotes ([StoredData]): [JSON.parse (JSON.stringify d)] is taken to be
      [d] for documents of the declared shape. *)

From Stdlib Require Import Ascii.
From stdpp Require Import base numbers list strings pretty gmap fin_maps.

Open Scope Z_scope.

(** ** Data model *)

Definition STORAGE_KEY : string := "initiative-tracker-session".

Inductive PhaseCellState := Waiting | Active | Done | Dead | Revived.

#[global] Instance PhaseCellState_eq_dec : EqDecision PhaseCellState.
Proof. solve_decision. Defined.

Definition PHASE_CELL_STATES : list PhaseCellState :=
  [Waiting; Active; Done; Dead; Revived].

(** The string literal each member of the union type stands for. *)
Definition cellStateName (s : PhaseCellState) : string :=
  match s with
  | Waiting => "waiting"
  | Active => "active"
  | Done => "done"
  | Dead => "dead"
  | Revived => "revived"
  end.

Definition getCellKey (rowIndex colIndex : Z) : string :=
  pretty rowIndex +:+ "-" +:+ pretty colIndex.

(** A JSON value of type [unknown]: a string, or anything else. *)
Inductive unknown := UString (s : string) | UOther.

(** The member of [PHASE_CELL_STATES] a raw value is, if any. *)
Definition narrow (v : unknown) : option PhaseCellState :=
  match v with
  | UString s =>
      head (filter (λ t, cellStateName t = s) PHASE_CELL_STATES)
  | UOther => None
  end.

Definition isPhaseCellState (v : unknown) : bool :=
  match v with
  | UString s => bool_decide (s ∈ cellStateName <$> PHASE_CELL_STATES)
  | UOther => false
  end.

Record State := mkState {
  participants : list string;
  phases : list string;
  values : gmap string PhaseCellState
}.

Definition rowCount (state : State) : Z := Z.of_nat (length (participants state)).
Definition colCount (state : State) : Z := Z.of_nat (length (phases state)).

(** [state.values[getCellKey(rowIndex, colIndex)] ?? "waiting"]: the
    component's [getCellState], with the state it closes over made a
    parameter. *)
Definition getCellState (state : State) (rowIndex colIndex : Z) : PhaseCellState :=
  default Waiting (values state !! getCellKey rowIndex colIndex).

(** ** Loading, migration and repair *)

Definition migrateCell (v : unknown) : PhaseCellState :=
  if isPhaseCellState v then default Waiting (narrow v) else Waiting.

(** The loop [for (const [k, v] of Object.entries(raw)) out[k] = ...] over
    the fresh object [out = {}].  Under the key [__proto__] the assignment
    does not create a property: it calls the prototype setter with a string,
    which does nothing. *)
Definition migrateValues (raw : gmap string unknown) : gmap string PhaseCellState :=
  foldl (λ out kv,
           if decide (kv.1 = "__proto__") then out
           else <[kv.1 := migrateCell kv.2]> out)
        ∅ (map_to_list raw).

Definition activeKeys (state : State) : list (string * PhaseCellState) :=
  filter (λ kv, kv.2 = Active) (map_to_list (values state)).

Definition ensureSingleActive (state : State) : State :=
  let ak := activeKeys state in
  if decide (length ak = 1%nat) then state
  else
    let demoted := foldl (λ vs kv, <[kv.1 := Done]> vs) (values state) ak in
    let repaired :=
      if bool_decide (0 < length (participants state))%nat
         && bool_decide (0 < length (phases state))%nat
         && bool_decide (length ak ≠ 1%nat)
      then <[getCellKey 0 0 := Active]> demoted
      else demoted in
    mkState (participants state) (phases state) repaired.

(** The JSON document kept under [STORAGE_KEY]; every field is optional. *)
Record StoredData := mkStored {
  sd_participants : option (list string);
  sd_phases : option (list string);
  sd_values : option (gmap string unknown)
}.

(** What the loader can meet. *)
Inductive Storage :=
  | NoWindow                 (* typeof window === "undefined" *)
  | NoItem                   (* getItem gives null or the empty string *)
  | Unreadable               (* JSON.parse, or reading the fields, throws *)
  | Item (data : StoredData).

Definition freshState : State := mkState [] ["Phase 1"] ∅.

(** The [state] built from the parsed document, before repair. *)
Definition parseStored (data : StoredData) : State :=
  let phases :=
    match sd_phases data with
    | Some (p :: ps) => p :: ps
    | _ => ["Phase 1"]
    end in
  let values := migrateValues (default ∅ (sd_values data)) in
  mkState (default [] (sd_participants data)) phases values.

Definition loadStateFromStorage (storage : Storage) : State :=
  match storage with
  | NoWindow => freshState
  | NoItem => freshState
  | Unreadable => freshState
  | Item data => ensureSingleActive (parseStored data)
  end.

Definition toStored (state : State) : StoredData :=
  mkStored (Some (participants state)) (Some (phases state))
           (Some ((λ s, UString (cellStateName s)) <$> values state)).

Definition saveStateToStorage (state : State) (storage : Storage) : Storage :=
  match storage with
  | NoWindow => NoWindow
  | _ => Item (toStored state)
  end.

(** ** The advancement scan *)

Record NextCell := mkNext { row : Z; col : Z; addPhase : bool }.

(** The body of [for (;;)], run at most [fuel] times.  [None] means the
    budget ran out with the loop still going. *)
Fixpoint scan (fuel : nat) (state : State) (r c : Z) : option NextCell :=
  match fuel with
  | O => None
  | S fuel' =>
      let rows := rowCount state in
      let cols := colCount state in
      let r1 := r + 1 in
      if bool_decide (rows ≤ r1) then
        let c1 := c + 1 in
        if bool_decide (cols ≤ c1) then Some (mkNext 0 cols true)
        else if bool_decide (getCellState state 0 c1 ≠ Dead)
             then Some (mkNext 0 c1 false)
             else scan fuel' state 0 c1
      else if bool_decide (getCellState state r1 c ≠ Dead)
           then Some (mkNext r1 c false)
           else scan fuel' state r1 c
  end.

(** A bound on the iterations still to come from [(r, c)]: the columns left,
    each worth a full pass over the rows, and the rows left in this one. *)
Definition scanMeasure (state : State) (r c : Z) : Z :=
  Z.max 0 (colCount state - c) * (rowCount state + 1)
  + Z.max 0 (rowCount state - r) + 1.

Definition scanBudget (state : State) (fromRow fromCol : Z) : nat :=
  Z.to_nat (scanMeasure state fromRow fromCol).

(** Outer [None]: the scan did not finish; inner [None]: the source's [null]. *)
Definition findNextActive (state : State) (fromRow fromCol : Z)
  : option (option NextCell) :=
  if bool_decide (rowCount state = 0 ∨ colCount state = 0) then Some None
  else Some <$> scan (scanBudget state fromRow fromCol) state fromRow fromCol.

(** ** The scan as the source runs it on doubles *)

(** The double nearest to an integer, ties going to the even significand.
    Integers up to 2^53 in magnitude are doubles; beyond, doubles are the
    multiples of 2^e with a significand of 53 bits.  (Overflow to infinity,
    past 2^1024, is not modelled.) *)
Definition roundToDouble (x : Z) : Z :=
  let a := Z.abs x in
  if bool_decide (a ≤ 2 ^ 53) then x
  else
    let e := Z.log2 a - 52 in
    let q := a `div` 2 ^ e in
    let rest := a `mod` 2 ^ e in
    let half := 2 ^ (e - 1) in
    let m :=
      if bool_decide (rest < half) then q
      else if bool_decide (half < rest) then q + 1
           else if Z.even q then q else q + 1 in
    Z.sgn x * (m * 2 ^ e).

(** [r += 1] and [c += 1] on a number that holds an integer. *)
Definition jsSucc (x : Z) : Z := roundToDouble (x + 1).

(** [Number.isSafeInteger] *)
Definition isSafeInteger (x : Z) : Prop := - 2 ^ 53 < x < 2 ^ 53.

(** Arrays have fewer than 2^32 elements. *)
Definition jsArrays (state : State) : Prop :=
  rowCount state < 2 ^ 32 ∧ colCount state < 2 ^ 32.

(** The body of [for (;;)] with the additions of the source. *)
Fixpoint scanOnDoubles (fuel : nat) (state : State) (r c : Z) : option NextCell :=
  match fuel with
  | O => None
  | S fuel' =>
      let rows := rowCount state in
      let cols := colCount state in
      let r1 := jsSucc r in
      if bool_decide (rows ≤ r1) then
        let c1 := jsSucc c in
        if bool_decide (cols ≤ c1) then Some (mkNext 0 cols true)
        else if bool_decide (getCellState state 0 c1 ≠ Dead)
             then Some (mkNext 0 c1 false)
             else scanOnDoubles fuel' state 0 c1
      else if bool_decide (getCellState state r1 c ≠ Dead)
           then Some (mkNext r1 c false)
           else scanOnDoubles fuel' state r1 c
  end.

(** ** Display-state queries *)

Definition isRowActive (state : State) (rowIndex : Z) : bool :=
  existsb (λ colIndex, bool_decide (getCellState state rowIndex colIndex = Active))
          (seqZ 0 (colCount state)).

Definition isCharacterDeadInPreviousPhase (state : State) (rowIndex colIndex : Z) : bool :=
  existsb (λ c, bool_decide (getCellState state rowIndex c = Dead)) (seqZ 0 colIndex).

Definition isCharacterRevivedInAnyPhase (state : State) (rowIndex : Z) : bool :=
  existsb (λ colIndex, bool_decide (getCellState state rowIndex colIndex = Revived))
          (seqZ 0 (colCount state)).

(** [phases.findIndex(...)], with [null] for [-1]. *)
Definition getRevivedPhaseColumn (state : State) (rowIndex : Z) : option Z :=
  head (filter (λ colIndex, getCellState state rowIndex colIndex = Revived)
               (seqZ 0 (colCount state))).

(** ** Handlers

    A handler either returns early, leaving everything as it was, or hands a
    next state to [save].  [None] is reserved for a scan that did not
    finish. *)

Inductive Effect := Returned | Saved (next : State).

Definition phaseLabel (n : nat) : string := "Phase " +:+ pretty (Z.of_nat n + 1).

(** What follows the write of the new cell state in each transition: when
    the scan found a cell, append a phase if asked to, and activate it. *)
Definition activateNext (state : State) (marked : gmap string PhaseCellState)
    (nextCell : option NextCell) : State :=
  match nextCell with
  | Some cell =>
      mkState (participants state)
              (if addPhase cell
               then phases state ++ [phaseLabel (length (phases state))]
               else phases state)
              (<[getCellKey (row cell) (col cell) := Active]> marked)
  | None => mkState (participants state) (phases state) marked
  end.

(** The part the three transitions share: the guard on the active cell, the
    write of the new cell state, the scan and the activation. *)
Definition transition (mark : PhaseCellState) (state : State)
    (rowIndex colIndex : Z) : option Effect :=
  let key := getCellKey rowIndex colIndex in
  if bool_decide (default Waiting (values state !! key) ≠ Active)
  then Some Returned
  else
    let marked := <[key := mark]> (values state) in
    nextCell ← findNextActive state rowIndex colIndex;
    Some (Saved (activateNext state marked nextCell)).

Definition markDone (state : State) (rowIndex colIndex : Z) : option Effect :=
  transition
    (if isCharacterDeadInPreviousPhase state rowIndex colIndex then Dead else Done)
    state rowIndex colIndex.

Definition markDead (state : State) (rowIndex colIndex : Z) : option Effect :=
  transition Dead state rowIndex colIndex.

Definition revive (state : State) (rowIndex colIndex : Z) : option Effect :=
  transition Revived state rowIndex colIndex.

Definition addParticipant (state : State) : Effect :=
  Saved (ensureSingleActive
           (mkState (participants state ++ [""]) (phases state) (values state))).

(** [next.participants[rowIndex] = name].  Inside the array the element is
    replaced.  At or past the end JavaScript grows the array and leaves
    holes before the new element; a hole reads as [undefined], which the
    name input shows as empty text, and the list stores the empty name
    there.  A negative index adds a property that is not an element. *)
Definition setParticipantName (state : State) (rowIndex : Z) (name : string) : Effect :=
  let n := length (participants state) in
  let names :=
    if bool_decide (rowIndex < 0) then participants state
    else if bool_decide (rowIndex < Z.of_nat n)
         then <[Z.to_nat rowIndex := name]> (participants state)
         else participants state ++ replicate (Z.to_nat rowIndex - n) "" ++ [name] in
  Saved (mkState names (phases state) (values state)).

Definition doReset : Effect := Saved freshState.

Inductive Action :=
  | AddParticipant
  | SetParticipantName (rowIndex : Z) (name : string)
  | MarkDone (rowIndex colIndex : Z)
  | MarkDead (rowIndex colIndex : Z)
  | Revive (rowIndex colIndex : Z)
  | ResetAll.

Definition handle (a : Action) (state : State) : option Effect :=
  match a with
  | AddParticipant => Some (addParticipant state)
  | SetParticipantName r name => Some (setParticipantName state r name)
  | MarkDone r c => markDone state r c
  | MarkDead r c => markDead state r c
  | Revive r c => revive state r c
  | ResetAll => Some doReset
  end.

(** The component state together with the storage it mirrors. *)
Record World := mkWorld { current : State; session : Storage }.

(** [save]: [setState(next); saveStateToStorage(next)]. *)
Definition save (next : State) (w : World) : World :=
  mkWorld next (saveStateToStorage next (session w)).

Definition perform (e : Effect) (w : World) : World :=
  match e with
  | Returned => w
  | Saved next => save next w
  end.

Definition dispatch (a : Action) (w : World) : option World :=
  e ← handle a (current w); Some (perform e w).

(** The states a session can go through: what the loader returns, and what
    the handlers save from there. *)
Inductive reachable : State → Prop :=
  | reach_load storage : reachable (loadStateFromStorage storage)
  | reach_step state a next :
      reachable state → handle a state = Some (Saved next) → reachable next.

(** ** Rendering of one cell *)

Inductive CellView :=
  | ShowWaiting
  | ShowActions (offerRevive : bool)   (* Done button, then Revive or Dead *)
  | ShowDone
  | ShowDead
  | ShowRevived.

Definition showAsDone (state : State) (rowIndex colIndex : Z) : bool :=
  match getRevivedPhaseColumn state rowIndex with
  | Some revivedCol => bool_decide (revivedCol < colIndex)
  | None => false
  end.

Definition renderCell (state : State) (rowIndex colIndex : Z) : CellView :=
  match getCellState state rowIndex colIndex with
  | Waiting => ShowWaiting
  | Active =>
      ShowActions (isCharacterDeadInPreviousPhase state rowIndex colIndex
                   && negb (isCharacterRevivedInAnyPhase state rowIndex))
  | Done => ShowDone
  | Dead => if showAsDone state rowIndex colIndex then ShowDone else ShowDead
  | Revived => ShowRevived
  end.

(** ** Notions used in the statements *)

(** Number of entries of the values map that are [Active], whatever their
    key. *)
Definition countActive (state : State) : nat := length (activeKeys state).

Definition inGrid (state : State) (r c : Z) : Prop :=
  0 ≤ r < rowCount state ∧ 0 ≤ c < colCount state.

(** The turn order: down a column, then on to the top of the next one. *)
Definition scanBefore (p q : Z * Z) : Prop :=
  p.2 < q.2 ∨ (p.2 = q.2 ∧ p.1 < q.1).

(** [fc] is the lowest column of the grid at which the row is revived. *)
Definition firstRevived (state : State) (rowIndex fc : Z) : Prop :=
  0 ≤ fc < colCount state
  ∧ getCellState state rowIndex fc = Revived
  ∧ ∀ c, 0 ≤ c < fc → getCellState state rowIndex c ≠ Revived.

(** The row is dead at some column before [colIndex]. *)
Definition deadEarlier (state : State) (rowIndex colIndex : Z) : Prop :=
  ∃ c, 0 ≤ c < colIndex ∧ getCellState state rowIndex c = Dead.

(** The scan started at a position hands back that very position (which it
    can only do as the append signal). *)
Definition scanReturnsStart (state : State) (rowIndex colIndex : Z) : Prop :=
  findNextActive state rowIndex colIndex
  = Some (Some (mkNext rowIndex colIndex true)).

(** Decimal digits, to tell the parts of a key apart. *)
Definition is_digit (a : ascii) : bool :=
  bool_decide (a ∈ ["0"; "1"; "2"; "3"; "4"; "5"; "6"; "7"; "8"; "9"]%char).

Fixpoint digits_only (s : string) : bool :=
  match s with
  | EmptyString => true
  | String a s' => is_digit a && digits_only s'
  end.



(** ** The confirmation dialog

    The [AlertDialog] components.  [P] is the state of the component that
    renders the dialog: it computes the [open] prop at each render and
    receives the [onOpenChange] calls and the [onClick] callbacks, each a
    state update. *)

Module AlertDialog.
Section model.
Context {P : Type}.

Record Props := mkProps {
  open : P → option bool;                 (* [None]: the prop is undefined *)
  onOpenChange : option (bool → P → P)
}.

(** The parts that take clicks. *)
Inductive Part := Trigger | Overlay | Cancel | Action.

#[global] Instance Part_eq_dec : EqDecision Part.
Proof. solve_decision. Defined.

(** [isControlled ? open : internalOpen] *)
Definition isOpen (props : Props) (parent : P) (internalOpen : bool) : bool :=
  match open props parent with
  | Some o => o
  | None => internalOpen
  end.

(** [AlertDialogContent] returns [null] unless the dialog is open. *)
Definition contentShown (props : Props) (st : P * bool) : bool :=
  isOpen props st.1 st.2.

(** A click on a part: the caller's [onClick], if any (the overlay takes
    none), then [onOpenChange] of the context with [true] for the trigger
    and [false] for the others.  The context value is the one of the render
    the click happens in: [setIsOpen] is the caller's [onOpenChange], or
    nothing when there is none, if [open] was defined at that render, and
    the setter of [internalOpen] otherwise. *)
Definition click (props : Props) (part : Part) (onClick : option (P → P))
    (st : P * bool) : P * bool :=
  let controlled := bool_decide (is_Some (open props st.1)) in
  let v := match part with Trigger => true | _ => false end in
  let parent :=
    match part, onClick with
    | Overlay, _ => st.1
    | _, Some f => f st.1
    | _, None => st.1
    end in
  if controlled
  then (match onOpenChange props with
        | Some change => change v parent
        | None => parent
        end, st.2)
  else (parent, v).

(** A run of clicks, none with a callback. *)
Definition clicks (props : Props) (parts : list Part) (st : P * bool) : P * bool :=
  foldl (λ acc part, click props part None acc) st parts.

End model.
End AlertDialog.

(** ** The screen of the tracker *)

Definition hasData (state : State) : bool :=
  bool_decide (0 < length (participants state))%nat
  || bool_decide (1 < length (phases state))%nat.

#[global] Instance inGrid_dec state r c : Decision (inGrid state r c).
Proof. unfold inGrid. apply _. Defined.

#[global] Instance CellView_eq_dec : EqDecision CellView.
Proof. solve_decision. Defined.

(** The component state, the storage, and the flag of the reset dialog. *)
Record Screen := mkScreen { world : World; resetDialogOpen : bool }.

(** [<AlertDialog open={resetDialogOpen} onOpenChange={setResetDialogOpen}>] *)
Definition resetDialog : AlertDialog.Props (P := Screen) :=
  AlertDialog.mkProps
    (λ s, Some (resetDialogOpen s))
    (Some (λ v s, mkScreen (world s) v)).

(** What the user can do on the page. *)
Inductive Click :=
  | ClickAddRow                          (* the row "Click to add participant" *)
  | EditName (rowIndex : Z) (name : string)
  | ClickDone (rowIndex colIndex : Z)
  | ClickRevive (rowIndex colIndex : Z)
  | ClickDead (rowIndex colIndex : Z)
  | ClickResetButton
  | ClickOverlay
  | ClickCancel
  | ClickClear.

(** Whether the element is on the page: name inputs per participant, the
    action buttons in the cells of the grid that are active (Done, and one
    of Revive and Dead), the parts of the dialog while it is open. *)
Definition rendered (s : Screen) (e : Click) : bool :=
  let state := current (world s) in
  match e with
  | ClickAddRow => true
  | EditName r _ => bool_decide (0 ≤ r < rowCount state)
  | ClickDone r c =>
      bool_decide (inGrid state r c)
      && bool_decide (getCellState state r c = Active)
  | ClickRevive r c =>
      bool_decide (inGrid state r c)
      && bool_decide (renderCell state r c = ShowActions true)
  | ClickDead r c =>
      bool_decide (inGrid state r c)
      && bool_decide (renderCell state r c = ShowActions false)
  | ClickResetButton => true
  | ClickOverlay | ClickCancel | ClickClear =>
      AlertDialog.contentShown resetDialog (s, false)
  end.

Definition withWorld (f : World → World) (s : Screen) : Screen :=
  mkScreen (f (world s)) (resetDialogOpen s).

(** The handler behind each element.  [None]: a scan that did not finish. *)
Definition onClick (e : Click) (s : Screen) : option Screen :=
  let state := current (world s) in
  match e with
  | ClickAddRow => Some (withWorld (perform (addParticipant state)) s)
  | EditName r name => Some (withWorld (perform (setParticipantName state r name)) s)
  | ClickDone r c => eff ← markDone state r c; Some (withWorld (perform eff) s)
  | ClickRevive r c => eff ← revive state r c; Some (withWorld (perform eff) s)
  | ClickDead r c => eff ← markDead state r c; Some (withWorld (perform eff) s)
  | ClickResetButton =>
      Some (if hasData state then mkScreen (world s) true else s)
  | ClickOverlay =>
      Some (AlertDialog.click resetDialog AlertDialog.Overlay None (s, false)).1
  | ClickCancel =>
      Some (AlertDialog.click resetDialog AlertDialog.Cancel None (s, false)).1
  | ClickClear =>
      Some (AlertDialog.click resetDialog AlertDialog.Action
              (Some (withWorld (perform doReset))) (s, false)).1
  end.

(** A run of clicks, each on an element that is on the page then. *)
Fixpoint runClicks (es : list Click) (s : Screen) : option Screen :=
  match es with
  | [] => Some s
  | e :: rest =>
      if rendered s e then s' ← onClick e s; runClicks rest s' else None
  end.

(** The screen once the mount effect has loaded the state. *)
Definition mounted (storage : Storage) : Screen :=
  mkScreen (mkWorld (loadStateFromStorage storage) storage) false.

(** A session in play: phases exist, and either nobody has joined and no
    entry is active, or exactly one entry is active and it is a cell of the
    grid. *)
Definition inPlay (state : State) : Prop :=
  phases state ≠ []
  ∧ ((participants state = [] ∧ countActive state = 0%nat)
     ∨ (countActive state = 1%nat
        ∧ ∃ r c, inGrid state r c ∧ getCellState state r c = Active)).

(** The titles "Phase 1", "Phase 2", ... of [n] columns. *)
Definition phaseLabels (n : nat) : list string := phaseLabel <$> seq 0 n.

(** ** The plain grid

    The variant of the component whose cells hold free text: no cell
    states, no repair on load, phases added by a button. *)

Module Plain.

Record State := mkState {
  participants : list string;
  phases : list string;
  values : gmap string string
}.

Record StoredData := mkStored {
  sd_participants : option (list string);
  sd_phases : option (list string);
  sd_values : option (gmap string string)
}.

Inductive Storage :=
  | NoWindow
  | NoItem
  | Unreadable
  | Item (data : StoredData).

Definition emptyState : State := mkState [] [] ∅.

Definition loadStateFromStorage (storage : Storage) : State :=
  match storage with
  | NoWindow => emptyState
  | NoItem => emptyState
  | Unreadable => emptyState
  | Item data =>
      mkState (default [] (sd_participants data))
              (default [] (sd_phases data))
              (default ∅ (sd_values data))
  end.

Definition saveStateToStorage (state : State) (storage : Storage) : Storage :=
  match storage with
  | NoWindow => NoWindow
  | _ => Item (mkStored (Some (participants state)) (Some (phases state))
                        (Some (values state)))
  end.

Inductive Effect := Returned | Saved (next : State).

Definition addParticipant (state : State) : Effect :=
  Saved (mkState (participants state ++ [""]) (phases state) (values state)).

Definition addPhase (state : State) : Effect :=
  let n := (length (phases state) + 1)%nat in
  Saved (mkState (participants state)
                 (phases state ++ ["Phase " +:+ pretty (Z.of_nat n)])
                 (values state)).

(** As in the other variant; see there for the indices outside the array. *)
Definition setParticipantName (state : State) (rowIndex : Z) (name : string) : Effect :=
  let n := length (participants state) in
  let names :=
    if bool_decide (rowIndex < 0) then participants state
    else if bool_decide (rowIndex < Z.of_nat n)
         then <[Z.to_nat rowIndex := name]> (participants state)
         else participants state ++ replicate (Z.to_nat rowIndex - n) "" ++ [name] in
  Saved (mkState names (phases state) (values state)).

Definition setCellValue (state : State) (rowIndex colIndex : Z) (value : string) : Effect :=
  let key := getCellKey rowIndex colIndex in
  Saved (mkState (participants state) (phases state)
                 (if decide (value = "") then delete key (values state)
                  else <[key := value]> (values state))).

Definition getCellValue (state : State) (rowIndex colIndex : Z) : string :=
  default "" (values state !! getCellKey rowIndex colIndex).

(** [confirmed] is the answer of the [confirm] box, asked only when there
    is something to clear. *)
Definition reset (confirmed : bool) (state : State) : Effect :=
  if bool_decide (0 < length (participants state))%nat
     || bool_decide (0 < length (phases state))%nat
  then if confirmed then Saved emptyState else Returned
  else Saved emptyState.

Definition isEmpty (state : State) : bool :=
  bool_decide (length (participants state) = 0%nat)
  && bool_decide (length (phases state) = 0%nat).

(** The state a handler leaves behind. *)
Definition after (e : Effect) (state : State) : State :=
  match e with
  | Returned => state
  | Saved next => next
  end.

End Plain.

(** A transition at [(r, c)] that wrote [mark] there and led to [next]:
    the turn went to a cell later in turn order, which is a cell of the grid
    of [next]; no other cell changed; the participants are the same and the
    phases are the same or have one more title. *)
Definition advancesTo (state : State) (r c : Z) (mark : PhaseCellState)
    (next : State) : Prop :=
  ∃ cell,
    findNextActive state r c = Some (Some cell)
    ∧ scanBefore (r, c) (row cell, col cell)
    ∧ inGrid next (row cell) (col cell)
    ∧ getCellState next (row cell) (col cell) = Active
    ∧ getCellState next r c = mark
    ∧ (∀ r' c', (r', c') ≠ (r, c) → (r', c') ≠ (row cell, col cell) →
                getCellState next r' c' = getCellState state r' c')
    ∧ participants next = participants state
    ∧ phases next
      = (if addPhase cell
         then phases state ++ [phaseLabel (length (phases state))]
         else phases state).

(** A state the load-time repair would leave alone. *)
Definition settled (state : State) : Prop :=
  phases state ≠ []
  ∧ (countActive state = 1%nat
     ∨ (countActive state = 0%nat ∧ participants state = [])).

(** The columns are titled "Phase 1", "Phase 2", ... in order. *)
Definition titled (state : State) : Prop :=
  phases state = phaseLabels (length (phases state)).

(** The row [r0] was revived at the cell [(r0, c0)] of the grid, and the
    turn has moved on from there. *)
Definition reviveSpent (r0 c0 : Z) (state : State) : Prop :=
  inGrid state r0 c0
  ∧ getCellState state r0 c0 = Revived
  ∧ countActive state = 1%nat
  ∧ ∃ r c, inGrid state r c ∧ getCellState state r c = Active
           ∧ scanBefore (r0, c0) (r, c).

(** The clicks sorted by what they do to the screen [s]: the buttons that
    only move the dialog flag, the new participant, the renaming of an
    existing participant, a transition on the active cell of the grid, and
    the confirmed reset. *)
Inductive stepKind (s : Screen) : Click → Screen → Prop :=
  | step_dialog e flag :
      e ∈ [ClickResetButton; ClickOverlay; ClickCancel] →
      (flag = true →
       resetDialogOpen s = true ∨ hasData (current (world s)) = true) →
      stepKind s e (mkScreen (world s) flag)
  | step_add :
      stepKind s ClickAddRow
        (mkScreen
           (save (ensureSingleActive
                    (mkState (participants (current (world s)) ++ [""])
                             (phases (current (world s)))
                             (values (current (world s)))))
                 (world s))
           (resetDialogOpen s))
  | step_name r name :
      0 ≤ r < rowCount (current (world s)) →
      stepKind s (EditName r name)
        (mkScreen
           (save (mkState (<[Z.to_nat r := name]>
                             (participants (current (world s))))
                          (phases (current (world s)))
                          (values (current (world s))))
                 (world s))
           (resetDialogOpen s))
  | step_turn e r c mark next :
      e ∈ [ClickDone r c; ClickRevive r c; ClickDead r c] →
      mark ≠ Active →
      (e = ClickRevive r c →
       mark = Revived
       ∧ renderCell (current (world s)) r c = ShowActions true) →
      inGrid (current (world s)) r c →
      getCellState (current (world s)) r c = Active →
      transition mark (current (world s)) r c = Some (Saved next) →
      stepKind s e (mkScreen (save next (world s)) (resetDialogOpen s))
  | step_clear :
      resetDialogOpen s = true →
      stepKind s ClickClear (mkScreen (save freshState (world s)) false).

(** The same grid under other names. *)
Definition withNames (names : list string) (state : State) : State :=
  mkState names (phases state) (values state).

Definition effectWithNames (names : list string) (e : Effect) : Effect :=
  match e with
  | Returned => Returned
  | Saved next => Saved (withNames names next)
  end.

(** The state with the entry under one key overwritten. *)
Definition withEntry (k : string) (cellState : PhaseCellState)
    (state : State) : State :=
  mkState (participants state) (phases state)
          (<[k := cellState]> (values state)).

(** ** Concrete runs *)

Definition twoPlayers : State :=
  mkState ["A"; "B"] ["Phase 1"] {[ "0-0" := Active ]}.

Definition loneGuest : State :=
  mkState ["A"] ["Phase 1"] {[ "0-1" := Active ]}.

Definition revivable : Screen :=
  mkScreen
    (mkWorld (mkState ["A"] ["Phase 1"; "Phase 2"]
                      (<["0-0" := Dead]> {[ "0-1" := Active ]}))
             NoItem)
    false.

(** One participant, and a dead entry far outside the grid. *)
Definition farDead : State :=
  mkState ["A"] ["Phase 1"] {[ "-18014398509481984-0" := Dead ]}.

(** One participant, the first cell active, and a dead entry left over at
    the position of the column to come. *)
Definition staleDead : State :=
  mkState ["A"] ["Phase 1"] (<["0-0" := Active]> {[ "0-1" := Dead ]}).

Example jsSucc_small : jsSucc 41 = 42.
Proof. reflexivity. Qed.

Example jsSucc_tie_even : jsSucc (- (2 ^ 53 + 6)) = - (2 ^ 53 + 4).
Proof. vm_compute. reflexivity. Qed.

Example jsSucc_stalls : jsSucc (- 2 ^ 54) = - 2 ^ 54.
Proof. vm_compute. reflexivity. Qed.

Example load_drops_proto :
  loadStateFromStorage
    (Item (mkStored (Some []) (Some ["Phase 1"])
                    (Some {[ "__proto__" := UString "active" ]})))
  = freshState.
Proof. vm_compute. reflexivity. Qed.

Example getCellKey_ex : getCellKey 3 12 = "3-12".
Proof. reflexivity. Qed.

Example markDone_first :
  markDone twoPlayers 0 0
  = Some (Saved (mkState ["A"; "B"] ["Phase 1"]
                         (<["1-0" := Active]> {[ "0-0" := Done ]}))).
Proof. vm_compute. reflexivity. Qed.

(** * Properties *)

(** ** Cell keys name cells *)

Section keys.

Lemma append_nil (t : string) : "" +:+ t = t.
Proof. reflexivity. Qed.

Lemma append_cons (a : ascii) (s t : string) :
  String a s +:+ t = String a (s +:+ t).
Proof. reflexivity. Qed.

Lemma append_nil_r (s : string) : s +:+ "" = s.
Proof.
  induction s as [|a s IH]; [done|]. rewrite append_cons. by f_equal.
Qed.

Lemma append_assoc (s1 s2 s3 : string) :
  (s1 +:+ s2) +:+ s3 = s1 +:+ (s2 +:+ s3).
Proof.
  induction s1 as [|a s1 IH]; [done|]. rewrite !append_cons. by f_equal.
Qed.

Lemma pretty_N_char_digit x : is_digit (pretty_N_char x) = true.
Proof. unfold pretty_N_char. by repeat case_match. Qed.

Lemma digits_only_app d1 d2 :
  digits_only d1 = true → digits_only d2 = true → digits_only (d1 +:+ d2) = true.
Proof.
  induction d1 as [|a d1 IH]; [done|]. rewrite append_cons. simpl.
  intros [? ?]%andb_prop ?. rewrite IH by done. by rewrite andb_true_r.
Qed.

Lemma pretty_N_go_digits (x : N) (s : string) :
  ∃ d, pretty_N_go x s = d +:+ s ∧ digits_only d = true
       ∧ ((0 < x)%N → d ≠ "").
Proof.
  revert s. induction (N.lt_wf_0 x) as [x _ IH]; intros s.
  destruct (decide (x = 0%N)) as [->|Hx].
  - exists "". rewrite pretty_N_go_0. split_and!; [done|done|lia].
  - rewrite pretty_N_go_step by lia.
    destruct (IH (x `div` 10)%N) with (s := String (pretty_N_char (x `mod` 10)) s)
      as (d & -> & Hd & _); [apply N.div_lt; lia|].
    exists (d +:+ String (pretty_N_char (x `mod` 10)) "").
    split_and!.
    + by rewrite append_assoc.
    + apply digits_only_app; [done|]. simpl.
      by rewrite pretty_N_char_digit.
    + intros _. by destruct d.
Qed.

Lemma pretty_N_digits (x : N) :
  digits_only (pretty x) = true ∧ pretty x ≠ "".
Proof.
  unfold pretty, pretty_N. case_decide; [done|].
  destruct (pretty_N_go_digits x "") as (d & -> & Hd & Hne).
  rewrite append_nil_r. split; [done|]. apply Hne. lia.
Qed.

(** A digit string followed by a dash is cut at that dash. *)
Lemma digits_dash_split d1 d2 t1 t2 :
  digits_only d1 = true → digits_only d2 = true →
  d1 +:+ String "-" t1 = d2 +:+ String "-" t2 → d1 = d2 ∧ t1 = t2.
Proof.
  revert d2. induction d1 as [|a d1 IH]; intros [|b d2];
    rewrite ?append_nil, ?append_cons; simpl.
  - by intros _ _ [= ->].
  - intros _ [Hb _]%andb_prop [= <- _]. done.
  - intros [Ha _]%andb_prop _ [= -> _]. done.
  - intros [_ H1]%andb_prop [_ H2]%andb_prop [= -> Heq].
    destruct (IH d2 H1 H2 Heq) as [-> ->]. done.
Qed.

(** The shape of a printed integer: an optional sign, then digits. *)
Lemma pretty_Z_shape (z : Z) :
  ∃ d, digits_only d = true ∧ d ≠ ""
       ∧ pretty z = (if bool_decide (z < 0) then String "-" d else d).
Proof.
  destruct z as [|p|p].
  - exists "0". done.
  - exists (pretty (N.pos p)).
    destruct (pretty_N_digits (N.pos p)) as [? ?]. done.
  - exists (pretty (N.pos p)).
    destruct (pretty_N_digits (N.pos p)) as [? ?]. done.
Qed.

Lemma getCellKey_unfold r c :
  getCellKey r c = pretty r +:+ String "-" (pretty c).
Proof. reflexivity. Qed.

Lemma getCellKey_inj r1 c1 r2 c2 :
  getCellKey r1 c1 = getCellKey r2 c2 → r1 = r2 ∧ c1 = c2.
Proof.
  rewrite !getCellKey_unfold. intros Heq.
  destruct (pretty_Z_shape r1) as (d1 & Hd1 & Hne1 & E1).
  destruct (pretty_Z_shape r2) as (d2 & Hd2 & Hne2 & E2).
  assert (pretty r1 = pretty r2 ∧ pretty c1 = pretty c2) as [Hr Hc].
  { rewrite E1, E2 in *. repeat case_bool_decide.
    - rewrite !append_cons in Heq. injection Heq as Heq.
      apply digits_dash_split in Heq as [-> ->]; done.
    - destruct d1 as [|a1 d1]; [done|].
      rewrite !append_cons in Heq. injection Heq as -> _.
      simpl in Hd1. done.
    - destruct d2 as [|a2 d2]; [done|].
      rewrite !append_cons in Heq. injection Heq as <- _.
      simpl in Hd2. done.
    - apply digits_dash_split in Heq as [-> ->]; done. }
  split; by apply (inj pretty).
Qed.

Lemma getCellKey_ne r1 c1 r2 c2 :
  (r1, c1) ≠ (r2, c2) → getCellKey r1 c1 ≠ getCellKey r2 c2.
Proof. intros Hne Heq. apply getCellKey_inj in Heq as [-> ->]. done. Qed.

Lemma getCellKey_not_proto r c : getCellKey r c ≠ "__proto__".
Proof.
  rewrite getCellKey_unfold.
  destruct (pretty_Z_shape r) as (d & Hd & Hne & ->).
  destruct d as [|a d]; [done|].
  case_bool_decide; rewrite !append_cons; intros Heq;
    injection Heq as Ha _; [discriminate Ha|].
  subst a. simpl in Hd. done.
Qed.

End keys.

(** ** Loops that write into a dictionary *)

Section folds.
Context {V W : Type} (g : string * V → W).

Lemma foldl_insert_notin (l : list (string * V)) (m0 : gmap string W) k :
  k ∉ l.*1 →
  foldl (λ out kv, <[kv.1 := g kv]> out) m0 l !! k = m0 !! k.
Proof.
  revert m0. induction l as [|[k' v'] l IH]; intros m0 Hk; [done|].
  simpl in *. apply not_elem_of_cons in Hk as [? ?].
  rewrite IH by done. by rewrite lookup_insert_ne.
Qed.

Lemma foldl_insert_in (l : list (string * V)) (m0 : gmap string W) k v :
  NoDup l.*1 → (k, v) ∈ l →
  foldl (λ out kv, <[kv.1 := g kv]> out) m0 l !! k = Some (g (k, v)).
Proof.
  revert m0. induction l as [|[k' v'] l IH]; intros m0 Hnd Hin.
  { by apply elem_of_nil in Hin. }
  simpl in *. apply NoDup_cons in Hnd as [Hk' Hnd].
  apply elem_of_cons in Hin as [[= -> ->]|Hin].
  - rewrite foldl_insert_notin by done. by rewrite lookup_insert_eq.
  - by apply IH.
Qed.
End folds.

Section guarded_fold.
Context {V W : Type} (g : string * V → W) (skipped : string).

Lemma foldl_guarded_notin (l : list (string * V)) (m0 : gmap string W) k :
  k ∉ l.*1 →
  foldl (λ out kv, if decide (kv.1 = skipped) then out
                   else <[kv.1 := g kv]> out) m0 l !! k
  = m0 !! k.
Proof.
  revert m0. induction l as [|[k' v'] l IH]; intros m0 Hk; [done|].
  simpl in *. apply not_elem_of_cons in Hk as [? ?].
  rewrite IH by done. case_decide; [done|]. by rewrite lookup_insert_ne.
Qed.

Lemma foldl_guarded_skipped (l : list (string * V)) (m0 : gmap string W) :
  foldl (λ out kv, if decide (kv.1 = skipped) then out
                   else <[kv.1 := g kv]> out) m0 l !! skipped
  = m0 !! skipped.
Proof.
  revert m0. induction l as [|[k' v'] l IH]; intros m0; [done|].
  simpl. rewrite IH. case_decide; [done|]. by rewrite lookup_insert_ne.
Qed.

Lemma foldl_guarded_in (l : list (string * V)) (m0 : gmap string W) k v :
  NoDup l.*1 → (k, v) ∈ l → k ≠ skipped →
  foldl (λ out kv, if decide (kv.1 = skipped) then out
                   else <[kv.1 := g kv]> out) m0 l !! k
  = Some (g (k, v)).
Proof.
  revert m0. induction l as [|[k' v'] l IH]; intros m0 Hnd Hin Hne.
  { by apply elem_of_nil in Hin. }
  simpl in *. apply NoDup_cons in Hnd as [Hk' Hnd].
  apply elem_of_cons in Hin as [[= -> ->]|Hin].
  - rewrite foldl_guarded_notin by done. rewrite decide_False by done.
    by rewrite lookup_insert_eq.
  - by apply IH.
Qed.

End guarded_fold.

Lemma migrateValues_lookup (raw : gmap string unknown) k :
  migrateValues raw !! k
  = if decide (k = "__proto__") then None else migrateCell <$> raw !! k.
Proof.
  unfold migrateValues. case_decide as Hproto.
  { subst k. rewrite (foldl_guarded_skipped (λ kv, migrateCell kv.2)).
    apply lookup_empty. }
  destruct (raw !! k) as [v|] eqn:Hk; simpl.
  - apply (foldl_guarded_in (λ kv, migrateCell kv.2) _ _ _ k v).
    + apply NoDup_fst_map_to_list.
    + by apply elem_of_map_to_list.
    + done.
  - rewrite (foldl_guarded_notin (λ kv, migrateCell kv.2)); [done|].
    intros ([k' v] & -> & Hin)%list_elem_of_fmap.
    apply elem_of_map_to_list in Hin. simpl in *. congruence.
Qed.

Lemma migrateValues_fmap (raw : gmap string unknown) :
  migrateValues raw = migrateCell <$> delete "__proto__" raw.
Proof.
  apply map_eq. intros k. rewrite migrateValues_lookup, lookup_fmap.
  case_decide as Hk.
  - subst k. by rewrite lookup_delete_eq.
  - by rewrite lookup_delete_ne.
Qed.

Lemma migrateCell_name (s : PhaseCellState) :
  migrateCell (UString (cellStateName s)) = s.
Proof. by destruct s. Qed.

Lemma isPhaseCellState_narrow (v : unknown) :
  isPhaseCellState v = true
  ↔ ∃ s, v = UString (cellStateName s) ∧ narrow v = Some s.
Proof.
  split.
  - destruct v as [str|]; [|done]. unfold isPhaseCellState.
    intros Hin%bool_decide_eq_true.
    apply list_elem_of_fmap in Hin as (s & -> & _). exists s.
    split; [done|]. by destruct s.
  - intros (s & -> & _). by destruct s.
Qed.

(** ** Counting the active entries *)

Lemma elem_of_activeKeys (state : State) k s :
  (k, s) ∈ activeKeys state ↔ s = Active ∧ values state !! k = Some Active.
Proof.
  unfold activeKeys. rewrite list_elem_of_filter, elem_of_map_to_list. simpl.
  split; [intros [-> ?]|intros [-> ?]]; done.
Qed.

Lemma NoDup_activeKeys (state : State) : NoDup (activeKeys state).*1.
Proof.
  unfold activeKeys.
  apply (sublist_NoDup _ (map_to_list (values state)).*1).
  - apply NoDup_fst_map_to_list.
  - apply fmap_sublist, sublist_filter.
Qed.

Lemma countActive_zero (state : State) :
  countActive state = 0%nat ↔ ∀ k, values state !! k ≠ Some Active.
Proof.
  unfold countActive. split.
  - intros Hlen k Hk. apply length_zero_iff_nil in Hlen.
    assert ((k, Active) ∈ activeKeys state) as Hin by by apply elem_of_activeKeys.
    rewrite Hlen in Hin. by apply elem_of_nil in Hin.
  - intros Hno. destruct (activeKeys state) as [|[k s] l] eqn:E; [done|].
    assert ((k, s) ∈ activeKeys state) as Hin by (rewrite E; left).
    apply elem_of_activeKeys in Hin as [_ Hin]. by apply Hno in Hin.
Qed.

Lemma countActive_one (state : State) k :
  values state !! k = Some Active →
  (∀ k', values state !! k' = Some Active → k' = k) →
  countActive state = 1%nat.
Proof.
  intros Hk Huniq. unfold countActive.
  pose proof (NoDup_activeKeys state) as Hnd.
  assert ((k, Active) ∈ activeKeys state) as Hin by by apply elem_of_activeKeys.
  destruct (activeKeys state) as [|[k1 s1] [|[k2 s2] l]] eqn:E; [|done|].
  - by apply elem_of_nil in Hin.
  - exfalso.
    assert (k1 = k ∧ k2 = k) as [-> ->].
    { split; apply Huniq; eapply (elem_of_activeKeys state _ _);
        rewrite E; [left|right; left]. }
    simpl in Hnd. apply NoDup_cons in Hnd as [Hnot _]. apply Hnot. left.
Qed.

Lemma countActive_le_one (state : State) k k' :
  (countActive state ≤ 1)%nat →
  values state !! k = Some Active → values state !! k' = Some Active → k = k'.
Proof.
  unfold countActive. intros Hlen Hk Hk'.
  assert ((k, Active) ∈ activeKeys state) as Hin by by apply elem_of_activeKeys.
  assert ((k', Active) ∈ activeKeys state) as Hin' by by apply elem_of_activeKeys.
  destruct (activeKeys state) as [|x [|y l]]; simpl in Hlen; [| |lia].
  - by apply elem_of_nil in Hin.
  - apply list_elem_of_singleton in Hin, Hin'. congruence.
Qed.

(** ** The repair pass *)

Lemma demote_lookup (state : State) k :
  foldl (λ vs kv, <[kv.1 := Done]> vs) (values state) (activeKeys state) !! k
  = if decide (values state !! k = Some Active) then Some Done
    else values state !! k.
Proof.
  case_decide as Hk.
  - apply (foldl_insert_in (λ _, Done) _ _ k Active).
    + apply NoDup_activeKeys.
    + by apply elem_of_activeKeys.
  - rewrite (foldl_insert_notin (λ _, Done)); [done|].
    intros ([k' s] & -> & Hin)%list_elem_of_fmap.
    apply elem_of_activeKeys in Hin as [_ Hin]. done.
Qed.

Lemma demote_no_active (state : State) k :
  foldl (λ vs kv, <[kv.1 := Done]> vs) (values state) (activeKeys state) !! k
  ≠ Some Active.
Proof. rewrite demote_lookup. case_decide; congruence. Qed.

Lemma ensureSingleActive_participants state :
  participants (ensureSingleActive state) = participants state.
Proof. unfold ensureSingleActive. by case_decide. Qed.

Lemma ensureSingleActive_phases state :
  phases (ensureSingleActive state) = phases state.
Proof. unfold ensureSingleActive. by case_decide. Qed.

Lemma ensureSingleActive_single state :
  countActive state = 1%nat → ensureSingleActive state = state.
Proof. unfold ensureSingleActive, countActive. intros ->. by case_decide. Qed.

Lemma ensureSingleActive_grid state :
  participants state ≠ [] → phases state ≠ [] →
  countActive (ensureSingleActive state) = 1%nat.
Proof.
  intros Hp Hph. unfold ensureSingleActive.
  case_decide as Hone; [done|].
  rewrite !bool_decide_eq_true_2; [|done|..]; simpl.
  - apply (countActive_one _ (getCellKey 0 0)); simpl.
    + by rewrite lookup_insert_eq.
    + intros k'. destruct (decide (getCellKey 0 0 = k')) as [<-|Hne]; [done|].
      rewrite lookup_insert_ne by done. intros Hk'.
      by apply demote_no_active in Hk'.
  - destruct (phases state); simpl; [done|lia].
  - destruct (participants state); simpl; [done|lia].
Qed.

Lemma ensureSingleActive_no_grid state :
  participants state = [] ∨ phases state = [] →
  countActive state ≠ 1%nat →
  countActive (ensureSingleActive state) = 0%nat.
Proof.
  intros Hempty Hone. unfold ensureSingleActive, countActive in *.
  case_decide; [done|].
  assert (bool_decide (0 < length (participants state))%nat
          && bool_decide (0 < length (phases state))%nat = false) as ->.
  { destruct Hempty as [-> | ->]; simpl; [done|]. apply andb_false_r. }
  simpl. apply countActive_zero. simpl. apply demote_no_active.
Qed.

Lemma ensureSingleActive_le_one state :
  (countActive (ensureSingleActive state) ≤ 1)%nat.
Proof.
  destruct (decide (countActive state = 1%nat)) as [Hone|Hone].
  { rewrite ensureSingleActive_single by done. lia. }
  destruct (participants state) as [|p ps] eqn:Ep.
  { rewrite ensureSingleActive_no_grid; [lia|by left|done]. }
  destruct (phases state) as [|q qs] eqn:Eq.
  { rewrite ensureSingleActive_no_grid; [lia|by right|done]. }
  rewrite ensureSingleActive_grid; [lia|by rewrite Ep|by rewrite Eq].
Qed.

Lemma ensureSingleActive_proto state :
  values state !! "__proto__" = None →
  values (ensureSingleActive state) !! "__proto__" = None.
Proof.
  intros Hnone. unfold ensureSingleActive. case_decide; [done|]. simpl.
  assert (foldl (λ vs kv, <[kv.1 := Done]> vs) (values state)
                (activeKeys state) !! "__proto__" = None) as Hdemoted.
  { rewrite demote_lookup. case_decide; [congruence|done]. }
  destruct (_ && _); [|done].
  rewrite lookup_insert_ne; [done|apply getCellKey_not_proto].
Qed.

(** ** The scan *)

Section scan.
Variable state : State.

Let rows := rowCount state.
Let cols := colCount state.

Lemma scan_S fuel r c :
  scan (S fuel) state r c
  = if bool_decide (rows ≤ r + 1) then
      if bool_decide (cols ≤ c + 1) then Some (mkNext 0 cols true)
      else if bool_decide (getCellState state 0 (c + 1) ≠ Dead)
           then Some (mkNext 0 (c + 1) false)
           else scan fuel state 0 (c + 1)
    else if bool_decide (getCellState state (r + 1) c ≠ Dead)
         then Some (mkNext (r + 1) c false)
         else scan fuel state (r + 1) c.
Proof. reflexivity. Qed.

Lemma scanBudget_measure r c :
  Z.of_nat (scanBudget state r c) = scanMeasure state r c.
Proof.
  unfold scanBudget, scanMeasure, rowCount, colCount. nia.
Qed.

Lemma scan_total fuel r c :
  scanMeasure state r c ≤ Z.of_nat fuel → is_Some (scan fuel state r c).
Proof.
  revert r c. induction fuel as [|fuel IH]; intros r c Hm.
  { unfold scanMeasure, rowCount, colCount in Hm. nia. }
  rewrite scan_S.
  repeat case_bool_decide; try done; apply IH;
    unfold scanMeasure, rows, cols, rowCount, colCount in *; nia.
Qed.

Lemma scan_more fuel r c res :
  scan fuel state r c = Some res → scan (S fuel) state r c = Some res.
Proof.
  revert r c. induction fuel as [|fuel IH]; intros r c; [done|].
  rewrite (scan_S (S fuel)), (scan_S fuel).
  repeat case_bool_decide; try done; by apply IH.
Qed.

Lemma scan_mono fuel fuel' r c res :
  (fuel ≤ fuel')%nat →
  scan fuel state r c = Some res → scan fuel' state r c = Some res.
Proof.
  induction 1 as [|fuel' _ IH]; [done|]. intros H. by apply scan_more, IH.
Qed.

(** What a finished scan hands back, from any starting point. *)
Lemma scan_result fuel r c res :
  scan fuel state r c = Some res →
  res = mkNext 0 cols true
  ∨ (addPhase res = false
     ∧ getCellState state (row res) (col res) ≠ Dead
     ∧ scanBefore (r, c) (row res, col res)).
Proof.
  revert r c. induction fuel as [|fuel IH]; intros r c; [done|].
  rewrite scan_S. unfold scanBefore in *. simpl in *.
  repeat case_bool_decide; intros Hs; simplify_eq/=;
    try (by left); try (right; split_and!; [done|done|lia]).
  - apply IH in Hs as [->|(? & ? & ?)]; [by left|right].
    split_and!; [done|done|lia].
  - apply IH in Hs as [->|(? & ? & ?)]; [by left|right].
    split_and!; [done|done|lia].
Qed.

(** From a starting point inside the grid: the first cell after it, in
    turn order, that is not dead; the append signal when there is none. *)
Lemma scan_first fuel r c res :
  inGrid state r c →
  scan fuel state r c = Some res →
  (addPhase res = false
   ∧ inGrid state (row res) (col res)
   ∧ scanBefore (r, c) (row res, col res)
   ∧ getCellState state (row res) (col res) ≠ Dead
   ∧ ∀ r' c', inGrid state r' c' → scanBefore (r, c) (r', c') →
              scanBefore (r', c') (row res, col res) →
              getCellState state r' c' = Dead)
  ∨ (res = mkNext 0 cols true
     ∧ ∀ r' c', inGrid state r' c' → scanBefore (r, c) (r', c') →
                getCellState state r' c' = Dead).
Proof.
  revert r c. induction fuel as [|fuel IH]; intros r c Hin; [done|].
  rewrite scan_S. unfold inGrid, scanBefore, rows, cols in *.
  simpl in *.
  repeat case_bool_decide; intros Hs; simplify_eq/=.
  - right. split; [done|]. intros r' c' ? ?. lia.
  - left. split_and!; try done; lia.
  - apply IH in Hs; [|lia].
    destruct Hs as [(? & ? & ? & ? & Hdead)|[-> Hdead]]; [left|right].
    + split_and!; try done; try lia. intros r' c' ? ? ?.
      destruct (decide (r' = 0 ∧ c' = c + 1)) as [[-> ->]|Hne].
      * done.
      * apply Hdead; [done|lia|done].
    + split; [done|]. intros r' c' ? ?.
      destruct (decide (r' = 0 ∧ c' = c + 1)) as [[-> ->]|Hne].
      * done.
      * apply Hdead; [done|lia].
  - left. split_and!; try done; lia.
  - apply IH in Hs; [|lia].
    destruct Hs as [(? & ? & ? & ? & Hdead)|[-> Hdead]]; [left|right].
    + split_and!; try done; try lia. intros r' c' ? ? ?.
      destruct (decide (r' = r + 1 ∧ c' = c)) as [[-> ->]|Hne].
      * done.
      * apply Hdead; [done|lia|done].
    + split; [done|]. intros r' c' ? ?.
      destruct (decide (r' = r + 1 ∧ c' = c)) as [[-> ->]|Hne].
      * done.
      * apply Hdead; [done|lia].
Qed.

End scan.

(** ** The scan on doubles *)

Lemma pow_2_53 : 2 ^ 53 = 9007199254740992.
Proof. reflexivity. Qed.

Lemma pow_2_32 : 2 ^ 32 = 4294967296.
Proof. reflexivity. Qed.

Lemma jsSucc_exact x : - 2 ^ 53 ≤ x < 2 ^ 53 → jsSucc x = x + 1.
Proof.
  intros Hx. unfold jsSucc, roundToDouble.
  rewrite bool_decide_eq_true_2; [done|]. rewrite pow_2_53 in *. lia.
Qed.

Lemma scanOnDoubles_S fuel state r c :
  scanOnDoubles (S fuel) state r c
  = if bool_decide (rowCount state ≤ jsSucc r) then
      if bool_decide (colCount state ≤ jsSucc c)
      then Some (mkNext 0 (colCount state) true)
      else if bool_decide (getCellState state 0 (jsSucc c) ≠ Dead)
           then Some (mkNext 0 (jsSucc c) false)
           else scanOnDoubles fuel state 0 (jsSucc c)
    else if bool_decide (getCellState state (jsSucc r) c ≠ Dead)
         then Some (mkNext (jsSucc r) c false)
         else scanOnDoubles fuel state (jsSucc r) c.
Proof. reflexivity. Qed.

(** On safe integers, and arrays as JavaScript has them, the additions of
    the source are exact all along the scan: the scan over the integers is
    the scan of the source. *)
Lemma scanOnDoubles_exact fuel state r c :
  rowCount state ≤ 2 ^ 53 → colCount state ≤ 2 ^ 53 →
  - 2 ^ 53 ≤ r < 2 ^ 53 → - 2 ^ 53 ≤ c < 2 ^ 53 →
  scanOnDoubles fuel state r c = scan fuel state r c.
Proof.
  intros Hrows Hcols. revert r c.
  induction fuel as [|fuel IH]; intros r c Hr Hc; [done|].
  rewrite scanOnDoubles_S, scan_S.
  rewrite !jsSucc_exact by done.
  rewrite pow_2_53 in *.
  repeat case_bool_decide; try done; apply IH; lia.
Qed.

Lemma safe_start_exact fuel state r c :
  jsArrays state → isSafeInteger r → isSafeInteger c →
  scanOnDoubles fuel state r c = scan fuel state r c.
Proof.
  unfold jsArrays, isSafeInteger. rewrite pow_2_32. intros [? ?] Hr Hc.
  apply scanOnDoubles_exact; rewrite pow_2_53 in *; lia.
Qed.

(** A scan from inside the grid reads cells of the grid only. *)
Lemma scan_agree s1 s2 fuel r c :
  rowCount s1 = rowCount s2 → colCount s1 = colCount s2 →
  (∀ r' c', inGrid s1 r' c' → getCellState s1 r' c' = getCellState s2 r' c') →
  inGrid s1 r c →
  scan fuel s1 r c = scan fuel s2 r c.
Proof.
  intros Hrows Hcols Hsame. revert r c.
  induction fuel as [|fuel IH]; intros r c Hin; [done|].
  rewrite !scan_S. rewrite <-Hrows, <-Hcols. unfold inGrid in *.
  case_bool_decide.
  - case_bool_decide; [done|].
    rewrite <-(Hsame 0 (c + 1)) by lia.
    case_bool_decide; [done|]. apply IH. lia.
  - rewrite <-(Hsame (r + 1) c) by lia.
    case_bool_decide; [done|]. apply IH. lia.
Qed.

(** ** The scan as the handlers call it *)

Lemma findNextActive_returns (state : State) r c :
  ∃ res, findNextActive state r c = Some res
         ∧ match res with
           | None => rowCount state = 0 ∨ colCount state = 0
           | Some cell =>
               0 < rowCount state ∧ 0 < colCount state
               ∧ scan (scanBudget state r c) state r c = Some cell
           end.
Proof.
  unfold findNextActive. case_bool_decide as Hgrid.
  { by exists None. }
  destruct (scan_total state (scanBudget state r c) r c) as [cell Hcell].
  { by rewrite scanBudget_measure. }
  exists (Some cell). rewrite Hcell. split; [done|].
  unfold rowCount, colCount in *. split_and!; [lia|lia|done].
Qed.

Lemma getCellState_active (state : State) r c :
  getCellState state r c = Active ↔ values state !! getCellKey r c = Some Active.
Proof.
  unfold getCellState. destruct (values state !! getCellKey r c); simpl; naive_solver.
Qed.

Lemma transition_guard mark state r c :
  getCellState state r c ≠ Active → transition mark state r c = Some Returned.
Proof.
  intros Hna. unfold transition. fold (getCellState state r c).
  by rewrite bool_decide_eq_true_2.
Qed.

Lemma transition_fires mark state r c :
  getCellState state r c = Active →
  ∃ res, findNextActive state r c = Some res
    ∧ transition mark state r c
      = Some (Saved (activateNext state
                       (<[getCellKey r c := mark]> (values state)) res)).
Proof.
  intros Ha. unfold transition. fold (getCellState state r c).
  rewrite bool_decide_eq_false_2 by (intros ?; done).
  destruct (findNextActive_returns state r c) as (res & -> & _).
  by exists res.
Qed.

(** ** The advancement algorithm *)

(** C2, amended.  From a starting position inside the grid,
    [findNextActive] returns the first position after it in turn order (down
    the column, then the top of the next column) whose cell is not dead,
    every position in between being dead; when every later position of the
    grid is dead it returns the append signal: row 0, the column equal to
    the phase count, [addPhase] set.  A position returned without
    [addPhase] is never dead.  The entry stored under the position of the
    append signal is not read: the answer is the same whatever that entry
    is. *)
Theorem findNextActive_first (state : State) (fromRow fromCol : Z) :
  inGrid state fromRow fromCol →
  (∃ cell,
    findNextActive state fromRow fromCol = Some (Some cell)
    ∧ ((addPhase cell = false
        ∧ inGrid state (row cell) (col cell)
        ∧ scanBefore (fromRow, fromCol) (row cell, col cell)
        ∧ getCellState state (row cell) (col cell) ≠ Dead
        ∧ ∀ r c, inGrid state r c →
                 scanBefore (fromRow, fromCol) (r, c) →
                 scanBefore (r, c) (row cell, col cell) →
                 getCellState state r c = Dead)
       ∨ (cell = mkNext 0 (colCount state) true
          ∧ ∀ r c, inGrid state r c →
                   scanBefore (fromRow, fromCol) (r, c) →
                   getCellState state r c = Dead)))
  ∧ (∀ cellState,
       findNextActive
         (withEntry (getCellKey 0 (colCount state)) cellState state)
         fromRow fromCol
       = findNextActive state fromRow fromCol).
Proof.
  intros Hin. split.
  - destruct (findNextActive_returns state fromRow fromCol)
      as ([cell|] & Hf & Hres).
    + destruct Hres as (_ & _ & Hscan). exists cell. split; [done|].
      by apply (scan_first state _ _ _ _ Hin Hscan).
    + unfold inGrid in Hin. lia.
  - intros cellState. unfold findNextActive, scanBudget, scanMeasure.
    set (other := withEntry (getCellKey 0 (colCount state)) cellState state).
    assert (rowCount other = rowCount state) as Hrows by reflexivity.
    assert (colCount other = colCount state) as Hcols by reflexivity.
    rewrite Hrows, Hcols. case_bool_decide; [done|]. f_equal.
    symmetry. apply scan_agree; [done|done| |done].
    intros r c Hcell. unfold other, withEntry, getCellState. simpl.
    rewrite lookup_insert_ne; [done|].
    apply getCellKey_ne. intros [= <- <-]. unfold inGrid in Hcell. lia.
Qed.

Lemma findNextActive_first_witness :
  ∃ cell, findNextActive twoPlayers 0 0 = Some (Some cell).
Proof.
  destruct (findNextActive_first twoPlayers 0 0) as ((cell & Hf & _) & _).
  - unfold inGrid, rowCount, colCount. simpl. lia.
  - exists cell. exact Hf.
Defined.

(** C2 as stated fails in its last clause: from the cell (0,0) of a grid
    with one participant and one phase the scan answers with the append
    signal at (0,1) although the entry stored there is dead, and [markDone]
    then makes that entry active. *)
Lemma append_signal_over_dead_entry :
  inGrid staleDead 0 0
  ∧ getCellState staleDead 0 1 = Dead
  ∧ findNextActive staleDead 0 0 = Some (Some (mkNext 0 1 true))
  ∧ markDone staleDead 0 0
    = Some (Saved (mkState ["A"] ["Phase 1"; "Phase 2"]
                           (<["0-0" := Done]> {[ "0-1" := Active ]}))).
Proof.
  split_and!.
  - unfold inGrid, rowCount, colCount. simpl. lia.
  - vm_compute. reflexivity.
  - vm_compute. reflexivity.
  - vm_compute. reflexivity.
Qed.

(** ** Totality *)

(** C8, amended.  On safe integers (magnitude below 2^53) as starting
    indices, [findNextActive] terminates on every state: within its budget
    of iterations the loop of the source, additions on doubles included,
    returns, the answer being [null] (empty grid), the append signal, or a
    cell that is not dead; more iterations give the same answer, and it is
    the answer of the scan over the integers.  Hence [markDone], [markDead]
    and [revive] return on such indices. *)
Theorem scan_and_transitions_total (state : State) (rowIndex colIndex : Z) :
  jsArrays state → isSafeInteger rowIndex → isSafeInteger colIndex →
  (∃ res,
      findNextActive state rowIndex colIndex = Some res
      ∧ match res with
        | None => rowCount state = 0 ∨ colCount state = 0
        | Some cell =>
            0 < rowCount state ∧ 0 < colCount state
            ∧ (cell = mkNext 0 (colCount state) true
               ∨ (addPhase cell = false
                  ∧ getCellState state (row cell) (col cell) ≠ Dead))
            ∧ ∀ fuel, (scanBudget state rowIndex colIndex ≤ fuel)%nat →
                      scanOnDoubles fuel state rowIndex colIndex = Some cell
                      ∧ scan fuel state rowIndex colIndex = Some cell
        end)
  ∧ is_Some (markDone state rowIndex colIndex)
  ∧ is_Some (markDead state rowIndex colIndex)
  ∧ is_Some (revive state rowIndex colIndex).
Proof.
  intros Harrays Hrow Hcol.
  assert (∀ mark, is_Some (transition mark state rowIndex colIndex)) as Htot.
  { intros mark.
    destruct (decide (getCellState state rowIndex colIndex = Active)) as [Ha|Hna].
    - destruct (transition_fires mark state rowIndex colIndex Ha)
        as (res & _ & ->). done.
    - rewrite transition_guard by done. done. }
  split_and!; [|apply Htot..].
  destruct (findNextActive_returns state rowIndex colIndex) as (res & Hf & Hres).
  exists res. split; [done|]. destruct res as [cell|]; [|done].
  destruct Hres as (Hr & Hc & Hscan). split_and!; [done|done|..].
  - destruct (scan_result state _ _ _ _ Hscan) as [->|(? & ? & _)]; auto.
  - intros fuel Hfuel. rewrite safe_start_exact by done.
    split; by apply (scan_mono state _ fuel) in Hscan.
Qed.

Lemma scan_and_transitions_total_witness :
  scanOnDoubles 12 twoPlayers (-3) 0 = Some (mkNext (-2) 0 false).
Proof.
  destruct (scan_and_transitions_total twoPlayers (-3) 0)
    as ((res & Hf & Hres) & _).
  - unfold jsArrays, rowCount, colCount. rewrite pow_2_32. simpl. lia.
  - unfold isSafeInteger. rewrite pow_2_53. lia.
  - unfold isSafeInteger. rewrite pow_2_53. lia.
  - vm_compute in Hf. injection Hf as <-.
    destruct Hres as (_ & _ & _ & Hfuel). apply Hfuel. vm_compute. lia.
Defined.

(** C8 as stated fails beyond the safe integers: from row -2^54 the
    addition [r += 1] of the source gives -2^54 again, so with a dead entry
    stored under that position the loop probes it for ever: no number of
    iterations makes the scan return. *)
Lemma scan_stalls_beyond_safe_integers :
  ¬ ∃ fuel, is_Some (scanOnDoubles fuel farDead (- 2 ^ 54) 0).
Proof.
  intros [fuel Hsome].
  assert (scanOnDoubles fuel farDead (- 2 ^ 54) 0 = None) as Hnone.
  { clear Hsome. induction fuel as [|fuel IH]; [done|].
    rewrite scanOnDoubles_S.
    assert (jsSucc (- 2 ^ 54) = - 2 ^ 54) as -> by (vm_compute; reflexivity).
    assert (bool_decide (rowCount farDead ≤ - 2 ^ 54) = false) as ->
      by (vm_compute; reflexivity).
    assert (bool_decide (getCellState farDead (- 2 ^ 54) 0 ≠ Dead) = false)
      as -> by (vm_compute; reflexivity).
    exact IH. }
  rewrite Hnone in Hsome. by destruct Hsome.
Qed.

(** ** Transitions on a cell that is not active *)

(** C4.  On a cell whose state is not active (a position outside the grid
    included; an absent entry reads as waiting) each of [markDone],
    [markDead] and [revive] returns before [save]: the component state and
    the storage stay as they were. *)
Theorem noop_on_non_active (state : State) (rowIndex colIndex : Z) :
  getCellState state rowIndex colIndex ≠ Active →
  markDone state rowIndex colIndex = Some Returned
  ∧ markDead state rowIndex colIndex = Some Returned
  ∧ revive state rowIndex colIndex = Some Returned
  ∧ ∀ w, current w = state →
         dispatch (MarkDone rowIndex colIndex) w = Some w
         ∧ dispatch (MarkDead rowIndex colIndex) w = Some w
         ∧ dispatch (Revive rowIndex colIndex) w = Some w.
Proof.
  intros Hna.
  assert (∀ mark, transition mark state rowIndex colIndex = Some Returned) as Hg.
  { intros mark. by apply transition_guard. }
  unfold markDone, markDead, revive. rewrite !Hg. split_and!; try done.
  intros w <-. unfold dispatch. simpl.
  unfold markDone, markDead, revive. by rewrite !Hg.
Qed.

Lemma noop_on_non_active_witness :
  markDone twoPlayers 7 7 = Some Returned
  ∧ dispatch (Revive 1 0) (mkWorld twoPlayers NoItem)
    = Some (mkWorld twoPlayers NoItem).
Proof.
  split.
  - apply (noop_on_non_active twoPlayers 7 7). vm_compute. discriminate.
  - apply (noop_on_non_active twoPlayers 1 0); [|reflexivity].
    vm_compute. discriminate.
Defined.

(** ** What a transition leaves alone *)




(** ** The outcome of markDone *)

Lemma isCharacterDeadInPreviousPhase_true state r c :
  isCharacterDeadInPreviousPhase state r c = true ↔ deadEarlier state r c.
Proof.
  unfold isCharacterDeadInPreviousPhase, deadEarlier.
  rewrite existsb_exists. split.
  - intros (c' & Hin & Hd). apply list_elem_of_In, elem_of_seqZ in Hin.
    apply bool_decide_eq_true in Hd. exists c'. split; [lia|done].
  - intros (c' & Hin & Hd). exists c'. split.
    + apply list_elem_of_In, elem_of_seqZ. lia.
    + by apply bool_decide_eq_true.
Qed.

Lemma scanReturnsStart_position state r c :
  scanReturnsStart state r c → r = 0 ∧ c = colCount state.
Proof.
  unfold scanReturnsStart. intros Hf.
  destruct (findNextActive_returns state r c) as (res & Hf' & Hres).
  rewrite Hf in Hf'. injection Hf' as <-. destruct Hres as (_ & _ & Hscan).
  destruct (scan_result state _ _ _ _ Hscan) as [[= -> ->]|(? & _)]; done.
Qed.

(** C3, amended.  On an active cell, at indices that are safe integers
    (magnitude below 2^53, where the additions of the scan are exact),
    [markDone] hands a next state to [save].  Unless the scan hands back the
    very position acted upon (the append signal, so row 0 and the column
    equal to the phase count: never a position inside the grid), the cell is
    dead in that state when the row is dead at some earlier column, and done
    otherwise.  In the excepted case the cell is active again. *)
Theorem markDone_outcome (state : State) (rowIndex colIndex : Z) :
  jsArrays state → isSafeInteger rowIndex → isSafeInteger colIndex →
  getCellState state rowIndex colIndex = Active →
  ∃ next,
    markDone state rowIndex colIndex = Some (Saved next)
    ∧ (¬ scanReturnsStart state rowIndex colIndex →
       (deadEarlier state rowIndex colIndex →
        getCellState next rowIndex colIndex = Dead)
       ∧ (¬ deadEarlier state rowIndex colIndex →
          getCellState next rowIndex colIndex = Done))
    ∧ (scanReturnsStart state rowIndex colIndex →
       getCellState next rowIndex colIndex = Active)
    ∧ (inGrid state rowIndex colIndex →
       ¬ scanReturnsStart state rowIndex colIndex)
    ∧ (∀ cell,
         findNextActive state rowIndex colIndex = Some (Some cell) →
         scanOnDoubles (scanBudget state rowIndex colIndex) state
                       rowIndex colIndex = Some cell).
Proof.
  intros Harrays Hrow Hcol Ha. unfold markDone.
  destruct (transition_fires
              (if isCharacterDeadInPreviousPhase state rowIndex colIndex
               then Dead else Done) state rowIndex colIndex Ha)
    as (res & Hf & ->).
  eexists. split; [done|]. split_and!.
  - intros Hns.
    assert (getCellState (activateNext state
              (<[getCellKey rowIndex colIndex :=
                   if isCharacterDeadInPreviousPhase state rowIndex colIndex
                   then Dead else Done]> (values state)) res)
              rowIndex colIndex
            = if isCharacterDeadInPreviousPhase state rowIndex colIndex
              then Dead else Done) as ->.
    { unfold getCellState, activateNext. destruct res as [cell|]; simpl;
        [|by rewrite lookup_insert_eq].
      rewrite lookup_insert_ne; [by rewrite lookup_insert_eq|].
      intros [Hr Hc]%getCellKey_inj. apply Hns. unfold scanReturnsStart.
      rewrite Hf.
      destruct (findNextActive_returns state rowIndex colIndex)
        as (res' & Hf' & Hres).
      rewrite Hf in Hf'. injection Hf' as <-. destruct Hres as (_ & _ & Hscan).
      destruct (scan_result state _ _ _ _ Hscan) as [->|(_ & _ & Hlt)].
      - simpl in *. by subst.
      - unfold scanBefore in Hlt. simpl in Hlt. lia. }
    split; intros Hd.
    + apply isCharacterDeadInPreviousPhase_true in Hd. by rewrite Hd.
    + destruct (isCharacterDeadInPreviousPhase state rowIndex colIndex) eqn:E;
        [|done].
      by apply isCharacterDeadInPreviousPhase_true in E.
  - unfold scanReturnsStart. rewrite Hf. intros [= ->].
    unfold getCellState, activateNext. simpl. by rewrite lookup_insert_eq.
  - intros [_ Hc] [_ ->]%scanReturnsStart_position. lia.
  - intros cell Hcell. rewrite safe_start_exact by done.
    destruct (findNextActive_returns state rowIndex colIndex)
      as (res' & Hf' & Hres).
    rewrite Hcell in Hf'. injection Hf' as <-. apply Hres.
Qed.

Lemma markDone_outcome_witness :
  ∃ next, markDone twoPlayers 0 0 = Some (Saved next)
          ∧ getCellState next 0 0 = Done.
Proof.
  destruct (markDone_outcome twoPlayers 0 0)
    as (next & Hm & Hout & _ & Hgrid & _).
  - unfold jsArrays, rowCount, colCount. rewrite pow_2_32. simpl. lia.
  - unfold isSafeInteger. rewrite pow_2_53. lia.
  - unfold isSafeInteger. rewrite pow_2_53. lia.
  - vm_compute. reflexivity.
  - exists next. split; [exact Hm|].
    apply Hout.
    + apply Hgrid. unfold inGrid, rowCount, colCount. simpl. lia.
    + intros (c & Hc & _). lia.
Defined.

(** C3 as stated fails where the active cell sits at the append position:
    the row has no dead cell, yet after [markDone] the cell is active, not
    done. *)
Lemma markDone_reactivates_append_cell :
  getCellState loneGuest 0 1 = Active
  ∧ ¬ deadEarlier loneGuest 0 1
  ∧ markDone loneGuest 0 1
    = Some (Saved (mkState ["A"] ["Phase 1"; "Phase 2"] {[ "0-1" := Active ]}))
  ∧ getCellState (mkState ["A"] ["Phase 1"; "Phase 2"] {[ "0-1" := Active ]}) 0 1
    ≠ Done.
Proof.
  split_and!.
  - vm_compute. reflexivity.
  - intros (c & Hc & Hd).
    assert (c = 0) as -> by lia. vm_compute in Hd. discriminate.
  - vm_compute. reflexivity.
  - vm_compute. discriminate.
Qed.

(** Beyond the safe integers the scan of the source can hand back its own
    start as a plain cell: from row -2^54 the addition stalls, and the cell
    probed is the one acted upon. *)
Lemma scan_returns_start_beyond_safe_integers :
  scanOnDoubles 1 (withEntry "-18014398509481984-0" Active farDead)
                (- 2 ^ 54) 0
  = Some (mkNext (- 2 ^ 54) 0 false).
Proof. vm_compute. reflexivity. Qed.

(** ** The two-participant walkthrough *)

(** C7.  With participants A and B, one phase, A active at (0,0) and
    nothing else recorded: [markDone 0 0] leaves (0,0) done and (1,0)
    active; [markDone 1 0] then leaves (1,0) done, appends the label
    "Phase 2" and leaves (0,1) active. *)
Theorem two_participant_walkthrough :
  ∃ afterA afterB,
    markDone twoPlayers 0 0 = Some (Saved afterA)
    ∧ participants afterA = ["A"; "B"]
    ∧ phases afterA = ["Phase 1"]
    ∧ getCellState afterA 0 0 = Done
    ∧ getCellState afterA 1 0 = Active
    ∧ markDone afterA 1 0 = Some (Saved afterB)
    ∧ participants afterB = ["A"; "B"]
    ∧ phases afterB = ["Phase 1"; "Phase 2"]
    ∧ getCellState afterB 0 0 = Done
    ∧ getCellState afterB 1 0 = Done
    ∧ getCellState afterB 0 1 = Active
    ∧ countActive afterB = 1%nat.
Proof.
  exists (mkState ["A"; "B"] ["Phase 1"]
                  (<["1-0" := Active]> {[ "0-0" := Done ]})).
  exists (mkState ["A"; "B"] ["Phase 1"; "Phase 2"]
                  (<["0-1" := Active]> (<["1-0" := Done]> {[ "0-0" := Done ]}))).
  split_and!; vm_compute; reflexivity.
Qed.

(** ** Rendering of dead cells *)

Section first_match.
Context (P : Z → Prop) `{!∀ x, Decision (P x)}.

Lemma head_filter_seqZ_Some (k : nat) (m x : Z) :
  head (filter P (seqZ m (Z.of_nat k))) = Some x
  ↔ m ≤ x < m + Z.of_nat k ∧ P x ∧ ∀ y, m ≤ y < x → ¬ P y.
Proof.
  revert m. induction k as [|k IH]; intros m.
  { simpl. split; [done|lia]. }
  rewrite seqZ_cons by lia.
  replace (Z.pred (Z.of_nat (S k))) with (Z.of_nat k) by lia.
  rewrite filter_cons. case_decide as HP; simpl.
  - split.
    + intros Heq. injection Heq as Heq. subst x.
      split_and!; [lia|lia|exact HP|intros y Hy; lia].
    + intros (Hx & HPx & Hmin). f_equal.
      destruct (decide (m = x)) as [|Hne]; [done|].
      exfalso. apply (Hmin m); [lia|done].
  - rewrite IH. split.
    + intros (Hx & HPx & Hmin). split_and!; [lia|lia|done|].
      intros y Hy. destruct (decide (y = m)) as [->|]; [done|].
      apply Hmin. lia.
    + intros (Hx & HPx & Hmin).
      assert (x ≠ m) by (intros ->; done).
      split_and!; [lia|lia|done|]. intros y Hy. apply Hmin. lia.
Qed.

Lemma head_filter_seqZ_None (k : nat) (m : Z) :
  head (filter P (seqZ m (Z.of_nat k))) = None
  ↔ ∀ y, m ≤ y < m + Z.of_nat k → ¬ P y.
Proof.
  rewrite head_None. split.
  - intros Hnil y Hy HPy.
    assert (y ∈ filter P (seqZ m (Z.of_nat k))) as Hin.
    { apply list_elem_of_filter. split; [done|]. by apply elem_of_seqZ. }
    rewrite Hnil in Hin. by apply elem_of_nil in Hin.
  - intros Hno. destruct (filter P (seqZ m (Z.of_nat k))) as [|y l] eqn:E;
      [done|].
    assert (y ∈ filter P (seqZ m (Z.of_nat k))) as Hin by (rewrite E; left).
    apply list_elem_of_filter in Hin as [HPy Hy%elem_of_seqZ].
    by apply Hno in HPy.
Qed.
End first_match.

Lemma getRevivedPhaseColumn_Some state rowIndex fc :
  getRevivedPhaseColumn state rowIndex = Some fc ↔ firstRevived state rowIndex fc.
Proof.
  unfold getRevivedPhaseColumn, firstRevived, colCount.
  rewrite (head_filter_seqZ_Some (λ c, getCellState state rowIndex c = Revived)).
  rewrite Z.add_0_l. done.
Qed.

Lemma getRevivedPhaseColumn_None state rowIndex :
  getRevivedPhaseColumn state rowIndex = None
  ↔ ∀ c, 0 ≤ c < colCount state → getCellState state rowIndex c ≠ Revived.
Proof.
  unfold getRevivedPhaseColumn, colCount.
  rewrite (head_filter_seqZ_None (λ c, getCellState state rowIndex c = Revived)).
  rewrite Z.add_0_l. done.
Qed.

Lemma showAsDone_true state rowIndex colIndex :
  showAsDone state rowIndex colIndex = true
  ↔ ∃ fc, firstRevived state rowIndex fc ∧ fc < colIndex.
Proof.
  unfold showAsDone. split.
  - destruct (getRevivedPhaseColumn state rowIndex) as [fc|] eqn:E; [|done].
    intros Hlt%bool_decide_eq_true. exists fc.
    by apply getRevivedPhaseColumn_Some in E.
  - intros (fc & Hfc%getRevivedPhaseColumn_Some & Hlt). rewrite Hfc.
    by apply bool_decide_eq_true.
Qed.

(** C6.  A cell stored as dead is shown as Done exactly when its row has a
    revived cell in the grid and the cell's column lies strictly after the
    first column at which the row is revived; otherwise it is shown as Dead.
    For a cell of the grid this is to say: exactly when the row is revived
    at some earlier column. *)
Theorem dead_cell_display (state : State) (rowIndex colIndex : Z) :
  getCellState state rowIndex colIndex = Dead →
  (renderCell state rowIndex colIndex = ShowDone
   ↔ ∃ fc, firstRevived state rowIndex fc ∧ fc < colIndex)
  ∧ (renderCell state rowIndex colIndex = ShowDead
     ↔ ¬ ∃ fc, firstRevived state rowIndex fc ∧ fc < colIndex)
  ∧ (colIndex < colCount state →
     (renderCell state rowIndex colIndex = ShowDone
      ↔ ∃ c, 0 ≤ c < colIndex ∧ getCellState state rowIndex c = Revived)).
Proof.
  intros Hdead. unfold renderCell. rewrite Hdead.
  pose proof (showAsDone_true state rowIndex colIndex) as Hshow.
  assert ((if showAsDone state rowIndex colIndex then ShowDone else ShowDead)
          = ShowDone
          ↔ ∃ fc, firstRevived state rowIndex fc ∧ fc < colIndex) as Hdone.
  { rewrite <-Hshow. by destruct (showAsDone state rowIndex colIndex). }
  split_and!; [done| |].
  - rewrite <-Hshow. by destruct (showAsDone state rowIndex colIndex).
  - intros Hcol. rewrite Hdone. split.
    + intros (fc & (Hfc & Hrev & _) & Hlt). exists fc. split; [lia|done].
    + intros (c & Hc & Hrev).
      destruct (getRevivedPhaseColumn state rowIndex) as [fc|] eqn:E.
      * apply getRevivedPhaseColumn_Some in E. exists fc. split; [done|].
        destruct E as (_ & _ & Hmin).
        destruct (decide (fc < colIndex)) as [|Hge]; [done|].
        exfalso. apply (Hmin c); [lia|done].
      * exfalso.
        apply (proj1 (getRevivedPhaseColumn_None state rowIndex) E c);
          [lia|done].
Qed.

Lemma dead_cell_display_witness :
  renderCell (mkState ["A"] ["Phase 1"; "Phase 2"; "Phase 3"]
                      (<["0-0" := Dead]> (<["0-1" := Revived]> {[ "0-2" := Dead ]})))
             0 2 = ShowDone.
Proof.
  destruct (dead_cell_display
              (mkState ["A"] ["Phase 1"; "Phase 2"; "Phase 3"]
                 (<["0-0" := Dead]> (<["0-1" := Revived]> {[ "0-2" := Dead ]})))
              0 2) as (Hdone & _ & _).
  - vm_compute. reflexivity.
  - apply Hdone. exists 1. split; [|lia].
    unfold firstRevived, colCount. simpl.
    split_and!; [lia|lia|vm_compute; reflexivity|].
    intros c Hc. assert (c = 0) as -> by lia. vm_compute. discriminate.
Defined.

(** ** The single-active invariant *)

Lemma countActive_values s1 s2 :
  values s1 = values s2 → countActive s1 = countActive s2.
Proof. unfold countActive, activeKeys. by intros ->. Qed.

Lemma countActive_fresh : countActive freshState = 0%nat.
Proof. apply countActive_zero. intros k. simpl. by rewrite lookup_empty. Qed.

Lemma load_le_one storage : (countActive (loadStateFromStorage storage) ≤ 1)%nat.
Proof.
  destruct storage; simpl; rewrite ?countActive_fresh; try lia.
  apply ensureSingleActive_le_one.
Qed.

Lemma transition_le_one mark state r c next :
  mark ≠ Active →
  (countActive state ≤ 1)%nat →
  transition mark state r c = Some (Saved next) →
  (countActive next ≤ 1)%nat.
Proof.
  intros Hmark Hle Ht.
  destruct (decide (getCellState state r c = Active)) as [Ha|Hna];
    [|by rewrite transition_guard in Ht].
  destruct (transition_fires mark state r c Ha) as (res & _ & Ht').
  rewrite Ht' in Ht. injection Ht as <-.
  apply getCellState_active in Ha.
  assert (∀ k, <[getCellKey r c := mark]> (values state) !! k ≠ Some Active)
    as Hnone.
  { intros k. destruct (decide (getCellKey r c = k)) as [<-|Hne].
    - rewrite lookup_insert_eq. congruence.
    - rewrite lookup_insert_ne by done. intros Hk.
      by apply Hne, (countActive_le_one state). }
  destruct res as [cell|]; simpl.
  - rewrite (countActive_one _ (getCellKey (row cell) (col cell))); [lia|..];
      simpl.
    + by rewrite lookup_insert_eq.
    + intros k'.
      destruct (decide (getCellKey (row cell) (col cell) = k')) as [<-|Hne];
        [done|].
      rewrite lookup_insert_ne by done. intros Hk'. by apply Hnone in Hk'.
  - assert (countActive
              (mkState (participants state) (phases state)
                       (<[getCellKey r c := mark]> (values state))) = 0%nat)
      as -> by by apply countActive_zero.
    lia.
Qed.

Lemma handle_le_one a state next :
  (countActive state ≤ 1)%nat →
  handle a state = Some (Saved next) →
  (countActive next ≤ 1)%nat.
Proof.
  intros Hle. destruct a; simpl.
  - intros [= <-]. apply ensureSingleActive_le_one.
  - intros [= <-]. by rewrite (countActive_values _ state).
  - apply transition_le_one; [|done]. by case_match.
  - by apply transition_le_one.
  - by apply transition_le_one.
  - intros [= <-]. rewrite countActive_fresh. lia.
Qed.

Lemma reachable_le_one state : reachable state → (countActive state ≤ 1)%nat.
Proof.
  induction 1 as [storage|state a next _ IH Hstep].
  - apply load_le_one.
  - by apply (handle_le_one a state).
Qed.

Lemma load_phases storage : phases (loadStateFromStorage storage) ≠ [].
Proof.
  destruct storage as [| | |data]; try done.
  simpl. rewrite ensureSingleActive_phases. simpl.
  by destruct (sd_phases data) as [[|p ps]|].
Qed.

(** C1, amended.  Every state reachable from a load, through any handlers
    with any arguments, has at most one active entry in its values map.
    Right after the load, the number of active entries is 1 when there is at
    least one participant (a phase always exists then); with no participant
    it is 0, unless the values as migrated hold exactly one active entry,
    which the repair keeps.  The values as migrated are the stored ones
    without the key [__proto__], a value that is no state name read as
    waiting. *)
Theorem single_active_invariant :
  (∀ state, reachable state → (countActive state ≤ 1)%nat)
  ∧ (∀ storage,
       participants (loadStateFromStorage storage) ≠ [] →
       phases (loadStateFromStorage storage) ≠ []
       ∧ countActive (loadStateFromStorage storage) = 1%nat)
  ∧ (∀ storage,
       participants (loadStateFromStorage storage) = [] →
       countActive (loadStateFromStorage storage)
       = match storage with
         | Item data =>
             if decide (countActive (parseStored data) = 1%nat)
             then 1%nat else 0%nat
         | _ => 0%nat
         end)
  ∧ (∀ data k,
       values (parseStored data) !! k
       = if decide (k = "__proto__") then None
         else migrateCell <$> default ∅ (sd_values data) !! k).
Proof.
  split_and!; [| | |intros data k; apply migrateValues_lookup].
  - apply reachable_le_one.
  - intros storage Hp. split; [apply load_phases|].
    pose proof (load_phases storage) as Hph.
    destruct storage as [| | |data]; try done.
    simpl in *. rewrite ensureSingleActive_participants in Hp.
    rewrite ensureSingleActive_phases in Hph.
    by apply ensureSingleActive_grid.
  - intros [| | |data] Hp; try apply countActive_fresh.
    simpl in *. rewrite ensureSingleActive_participants in Hp.
    case_decide as Hone.
    + by rewrite ensureSingleActive_single.
    + apply ensureSingleActive_no_grid; [by left|done].
Qed.

Lemma single_active_invariant_witness :
  (countActive
     (ensureSingleActive (mkState ([] ++ [""]) ["Phase 1"] ∅)) ≤ 1)%nat.
Proof.
  apply (proj1 single_active_invariant).
  apply (reach_step freshState AddParticipant).
  - exact (reach_load NoItem).
  - reflexivity.
Defined.

(** C1 as stated fails on the empty grid: a stored document with no
    participant and one active entry is left as it is, so one entry is
    active after the repair. *)
Lemma repair_keeps_lone_active_without_grid :
  let loaded :=
    loadStateFromStorage
      (Item (mkStored (Some []) (Some ["Phase 1"])
                      (Some {[ "0-0" := UString "active" ]}))) in
  participants loaded = [] ∧ countActive loaded = 1%nat.
Proof. vm_compute. done. Qed.

(** ** Saving and loading again *)

Lemma migrateValues_toStored (vs : gmap string PhaseCellState) :
  migrateValues ((λ s, UString (cellStateName s)) <$> vs)
  = delete "__proto__" vs.
Proof.
  apply map_eq. intros k. rewrite migrateValues_lookup. case_decide as Hk.
  { subst k. by rewrite lookup_delete_eq. }
  rewrite lookup_delete_ne by done.
  rewrite !lookup_fmap. destruct (vs !! k) as [s|]; simpl; [|done].
  by rewrite migrateCell_name.
Qed.

Lemma parseStored_no_proto data :
  values (parseStored data) !! "__proto__" = None.
Proof.
  unfold parseStored. simpl. rewrite migrateValues_lookup. by case_decide.
Qed.

Lemma parseStored_toStored state :
  phases state ≠ [] →
  values state !! "__proto__" = None →
  parseStored (toStored state) = state.
Proof.
  destruct state as [ps [|q qs] vs]; intros Hph Hnone; [done|].
  unfold parseStored, toStored. simpl in *.
  rewrite migrateValues_toStored. by rewrite delete_id.
Qed.

Lemma load_no_proto storage :
  values (loadStateFromStorage storage) !! "__proto__" = None.
Proof.
  destruct storage as [| | |data]; try done.
  simpl. apply ensureSingleActive_proto, parseStored_no_proto.
Qed.

Lemma ensureSingleActive_fixed state :
  ensureSingleActive state = state
  ↔ countActive state = 1%nat
    ∨ (countActive state = 0%nat
       ∧ (participants state = [] ∨ phases state = [])).
Proof.
  split.
  - intros Hfix.
    destruct (decide (countActive state = 1%nat)) as [|Hone]; [by left|right].
    destruct (decide (participants state = [] ∨ phases state = []))
      as [Hempty|Hgrid].
    + split; [|done]. rewrite <-Hfix. by apply ensureSingleActive_no_grid.
    + exfalso. apply Hone. rewrite <-Hfix.
      apply ensureSingleActive_grid; intros ?; apply Hgrid; auto.
  - intros [Hone|[Hzero Hempty]]; [by apply ensureSingleActive_single|].
    unfold ensureSingleActive, countActive in *.
    apply length_zero_iff_nil in Hzero. rewrite Hzero. simpl.
    assert (bool_decide (0 < length (participants state))%nat
            && bool_decide (0 < length (phases state))%nat = false) as ->.
    { destruct Hempty as [-> | ->]; simpl; [done|]. apply andb_false_r. }
    simpl. by destruct state.
Qed.

Lemma load_settled storage :
  phases (loadStateFromStorage storage) ≠ []
  ∧ (countActive (loadStateFromStorage storage) = 1%nat
     ∨ (countActive (loadStateFromStorage storage) = 0%nat
        ∧ participants (loadStateFromStorage storage) = [])).
Proof.
  split; [apply load_phases|].
  destruct storage as [| | |data];
    try (right; split; [apply countActive_fresh|done]).
  simpl. set (parsed := parseStored data).
  destruct (decide (countActive parsed = 1%nat)) as [Hone|Hone].
  { left. by rewrite ensureSingleActive_single. }
  destruct (decide (participants parsed = [])) as [Hnil|Hp].
  - right. rewrite ensureSingleActive_participants.
    split; [|done]. apply ensureSingleActive_no_grid; [by left|done].
  - left. apply ensureSingleActive_grid; [done|].
    unfold parsed, parseStored. simpl.
    by destruct (sd_phases data) as [[|p ps]|].
Qed.

(** C5, amended.  With session storage at hand, saving a state and loading
    it again gives back the same state exactly when neither the migration
    nor the repair on load has anything to mend: the phases are not empty,
    the values map has no entry under the key [__proto__] (which the
    migration drops), and either exactly one entry is active, or none is and
    there is no participant.  Every state the loader returns is of this
    kind, and so comes back unchanged. *)
Theorem save_load_roundtrip (state : State) (storage : Storage) :
  storage ≠ NoWindow →
  (loadStateFromStorage (saveStateToStorage state storage) = state
   ↔ phases state ≠ []
     ∧ values state !! "__proto__" = None
     ∧ (countActive state = 1%nat
        ∨ (countActive state = 0%nat ∧ participants state = [])))
  ∧ (∀ earlier,
       loadStateFromStorage
         (saveStateToStorage (loadStateFromStorage earlier) storage)
       = loadStateFromStorage earlier).
Proof.
  intros Hw.
  assert (∀ st,
    loadStateFromStorage (saveStateToStorage st storage) = st
    ↔ phases st ≠ []
      ∧ values st !! "__proto__" = None
      ∧ (countActive st = 1%nat
         ∨ (countActive st = 0%nat ∧ participants st = []))) as Hiff.
  { intros st.
    assert (loadStateFromStorage (saveStateToStorage st storage)
            = ensureSingleActive (parseStored (toStored st))) as ->.
    { by destruct storage. }
    split.
    - intros Heq.
      assert (phases st ≠ []) as Hph.
      { pose proof (load_phases (Item (toStored st))) as Hload.
        simpl in Hload. by rewrite Heq in Hload. }
      assert (values st !! "__proto__" = None) as Hnone.
      { rewrite <-Heq. apply ensureSingleActive_proto, parseStored_no_proto. }
      split; [done|]. split; [done|].
      rewrite parseStored_toStored in Heq by done.
      apply ensureSingleActive_fixed in Heq as [?|[? [?|?]]];
        [auto|auto|done].
    - intros (Hph & Hnone & Hcount).
      rewrite parseStored_toStored by done. apply ensureSingleActive_fixed.
      destruct Hcount as [?|[? ?]]; auto. }
  split; [apply Hiff|].
  intros earlier. apply Hiff.
  split; [apply load_settled|]. split; [apply load_no_proto|].
  apply load_settled.
Qed.

Lemma save_load_roundtrip_witness :
  loadStateFromStorage (saveStateToStorage twoPlayers NoItem) = twoPlayers.
Proof.
  destruct (save_load_roundtrip twoPlayers NoItem) as [Hiff _];
    [discriminate|].
  apply (proj2 Hiff). split; [discriminate|]. split; [reflexivity|].
  left. vm_compute. reflexivity.
Defined.

(** C5 as stated fails on a state with a participant and no active entry:
    loading what was saved promotes the cell (0,0). *)
Lemma save_load_promotes_first_cell :
  loadStateFromStorage
    (saveStateToStorage (mkState ["A"] ["Phase 1"] ∅) NoItem)
  = mkState ["A"] ["Phase 1"] {[ "0-0" := Active ]}
  ∧ loadStateFromStorage
      (saveStateToStorage (mkState ["A"] ["Phase 1"] ∅) NoItem)
    ≠ mkState ["A"] ["Phase 1"] ∅.
Proof. split; [vm_compute; reflexivity|]. vm_compute. discriminate. Qed.

(** ** An active entry outside the grid *)

(** C10.  The repair counts the active entries over all keys.  A state
    whose only active entry is keyed by a position outside the grid (row at
    or past the participant count, or column at or past the phase count) is
    returned as it is; no cell of the grid is active in the result, also
    when there are participants and phases; and the load of a document that
    parses to such a state returns that state. *)
Theorem lone_active_outside_grid (state : State) (r c : Z) :
  countActive state = 1%nat →
  getCellState state r c = Active →
  rowCount state ≤ r ∨ colCount state ≤ c →
  ensureSingleActive state = state
  ∧ (∀ r' c', inGrid state r' c' →
              getCellState (ensureSingleActive state) r' c' ≠ Active)
  ∧ (∀ data, parseStored data = state →
             loadStateFromStorage (Item data) = state).
Proof.
  intros Hone Ha Hout.
  pose proof (ensureSingleActive_single state Hone) as Hfix.
  split_and!; [done| |].
  - intros r' c' Hin Ha'. rewrite Hfix in Ha'.
    apply getCellState_active in Ha, Ha'.
    assert (getCellKey r c = getCellKey r' c') as [-> ->]%getCellKey_inj.
    { apply (countActive_le_one state); [lia|done|done]. }
    unfold inGrid in Hin. lia.
  - intros data <-. done.
Qed.

Lemma lone_active_outside_grid_witness :
  loadStateFromStorage
    (Item (mkStored (Some ["A"]) (Some ["Phase 1"])
                    (Some {[ "5-5" := UString "active" ]})))
  = mkState ["A"] ["Phase 1"] {[ "5-5" := Active ]}.
Proof.
  apply (lone_active_outside_grid
           (mkState ["A"] ["Phase 1"] {[ "5-5" := Active ]}) 5 5).
  - vm_compute. reflexivity.
  - vm_compute. reflexivity.
  - left. unfold rowCount. simpl. lia.
  - vm_compute. reflexivity.
Defined.

(** * Further properties of the engine *)

(** ** Migration of stored values *)

Lemma migrateCell_other (v : unknown) :
  (∀ t, v ≠ UString (cellStateName t)) → migrateCell v = Waiting.
Proof.
  intros Hno. unfold migrateCell.
  destruct (isPhaseCellState v) eqn:E; [|done].
  apply isPhaseCellState_narrow in E as (s & -> & _). by destruct (Hno s).
Qed.

(** X1.  [migrateValues] drops the key [__proto__], keeps every other key
    of the stored map, and adds none; a value that is the name of a cell
    state is kept as that state, and any other value (a string that is no
    state name, or not a string) becomes waiting. *)
Theorem migrateValues_coerces (raw : gmap string unknown) (k : string) :
  if decide (k = "__proto__") then migrateValues raw !! k = None
  else
    match raw !! k with
    | None => migrateValues raw !! k = None
    | Some v =>
        ∃ s, migrateValues raw !! k = Some s
             ∧ (v = UString (cellStateName s)
                ∨ ((∀ t, v ≠ UString (cellStateName t)) ∧ s = Waiting))
    end.
Proof.
  rewrite migrateValues_lookup. case_decide; [done|].
  destruct (raw !! k) as [v|]; simpl; [|done].
  exists (migrateCell v). split; [done|].
  destruct (isPhaseCellState v) eqn:E.
  - left. apply isPhaseCellState_narrow in E as (s & -> & _).
    by rewrite migrateCell_name.
  - right. split; [|by unfold migrateCell; rewrite E].
    intros t ->. by destruct t.
Qed.

(** ** More on the repair pass *)

(** X2.  The repair pass is idempotent: a repaired state is left as it is
    by a second pass. *)
Theorem ensureSingleActive_idempotent (state : State) :
  ensureSingleActive (ensureSingleActive state) = ensureSingleActive state.
Proof.
  apply ensureSingleActive_fixed.
  rewrite ensureSingleActive_participants, ensureSingleActive_phases.
  destruct (decide (countActive state = 1%nat)) as [Hone|Hone].
  { left. by rewrite ensureSingleActive_single. }
  destruct (decide (participants state = [] ∨ phases state = []))
    as [Hempty|Hgrid].
  - right. split; [|done]. by apply ensureSingleActive_no_grid.
  - left. apply ensureSingleActive_grid; intros ?; apply Hgrid; auto.
Qed.

Lemma ensureSingleActive_lookup (state : State) (k : string) :
  countActive state ≠ 1%nat →
  values (ensureSingleActive state) !! k
  = if bool_decide (participants state ≠ [] ∧ phases state ≠ []
                    ∧ k = getCellKey 0 0)
    then Some Active
    else if decide (values state !! k = Some Active) then Some Done
         else values state !! k.
Proof.
  intros Hone.
  unfold ensureSingleActive. fold (countActive state).
  case_decide; [done|]. simpl.
  rewrite (bool_decide_eq_true_2 (countActive state ≠ 1%nat)) by done.
  rewrite andb_true_r.
  destruct (participants state) as [|p ps]; simpl; [apply demote_lookup|].
  destruct (phases state) as [|q qs]; simpl; [apply demote_lookup|].
  case_bool_decide as Hk.
  - destruct Hk as (_ & _ & ->). by rewrite lookup_insert_eq.
  - rewrite lookup_insert_ne; [apply demote_lookup|].
    intros <-. by apply Hk.
Qed.

(** X3.  When the number of active entries is not one, the repair pass
    rewrites the values map as follows and touches nothing else: the key of
    cell (0,0) becomes active if there is a participant and a phase; every
    other entry that was active becomes done; the remaining entries, absent
    ones included, stay as they are. *)
Theorem ensureSingleActive_rewrites (state : State) (k : string) :
  countActive state ≠ 1%nat →
  participants (ensureSingleActive state) = participants state
  ∧ phases (ensureSingleActive state) = phases state
  ∧ values (ensureSingleActive state) !! k
    = if bool_decide (participants state ≠ [] ∧ phases state ≠ []
                      ∧ k = getCellKey 0 0)
      then Some Active
      else if decide (values state !! k = Some Active) then Some Done
           else values state !! k.
Proof.
  intros Hone.
  split; [apply ensureSingleActive_participants|].
  split; [apply ensureSingleActive_phases|].
  by apply ensureSingleActive_lookup.
Qed.

Lemma ensureSingleActive_rewrites_witness :
  values (ensureSingleActive
            (mkState ["A"] ["Phase 1"]
                     (<["0-0" := Active]> {[ "0-1" := Active ]})))
  !! "0-1" = Some Done.
Proof.
  destruct (ensureSingleActive_rewrites
              (mkState ["A"] ["Phase 1"]
                       (<["0-0" := Active]> {[ "0-1" := Active ]})) "0-1")
    as (_ & _ & Hv).
  - vm_compute. discriminate.
  - rewrite Hv. vm_compute. reflexivity.
Defined.

(** X4.  Of a readable document the loader drops only the key
    [__proto__] of the values: the participants are those stored (none when
    the field is missing), the phases are those stored (the single "Phase 1"
    when the field is missing or empty), every stored key other than
    [__proto__] has an entry, [__proto__] has none, and the only key that
    may be new is that of cell (0,0). *)
Theorem load_keeps_document (data : StoredData) (k : string) :
  let loaded := loadStateFromStorage (Item data) in
  participants loaded = default [] (sd_participants data)
  ∧ phases loaded
    = (if bool_decide (default [] (sd_phases data) = [])
       then ["Phase 1"] else default [] (sd_phases data))
  ∧ (k ≠ "__proto__" →
     is_Some (default ∅ (sd_values data) !! k) → is_Some (values loaded !! k))
  ∧ values loaded !! "__proto__" = None
  ∧ (is_Some (values loaded !! k) →
     is_Some (default ∅ (sd_values data) !! k) ∨ k = getCellKey 0 0).
Proof.
  simpl. rewrite ensureSingleActive_participants, ensureSingleActive_phases.
  split; [done|]. split.
  { simpl. by destruct (sd_phases data) as [[|p ps]|]. }
  set (parsed := parseStored data).
  assert (values parsed !! k
          = if decide (k = "__proto__") then None
            else migrateCell <$> default ∅ (sd_values data) !! k)
    as Hparsed by apply migrateValues_lookup.
  pose proof (parseStored_no_proto data) as Hproto. fold parsed in Hproto.
  clearbody parsed.
  split_and!.
  - intros Hk [v Hv]. rewrite decide_False in Hparsed by done.
    rewrite Hv in Hparsed. simpl in Hparsed.
    destruct (decide (countActive parsed = 1%nat)) as [Hone|Hone].
    { rewrite ensureSingleActive_single by done. by rewrite Hparsed. }
    rewrite (ensureSingleActive_lookup parsed k Hone), Hparsed.
    case_bool_decide; [done|]. by case_decide.
  - by apply ensureSingleActive_proto.
  - destruct (decide (countActive parsed = 1%nat)) as [Hone|Hone].
    { rewrite ensureSingleActive_single by done. rewrite Hparsed.
      case_decide; [by intros [? ?]|]. rewrite fmap_is_Some. auto. }
    rewrite (ensureSingleActive_lookup parsed k Hone), Hparsed.
    case_bool_decide as Hk; [intros _; right; by destruct Hk as (_ & _ & ?)|].
    case_decide as Hp.
    { case_decide; [done|]. by intros [? ?]. }
    case_decide as Ha.
    + intros _. left. by destruct (default ∅ (sd_values data) !! k).
    + rewrite fmap_is_Some. auto.
Qed.

Lemma load_keeps_document_witness :
  is_Some (values (loadStateFromStorage
                     (Item (mkStored None None (Some {[ "3-4" := UOther ]}))))
           !! "3-4").
Proof.
  destruct (load_keeps_document
              (mkStored None None (Some {[ "3-4" := UOther ]})) "3-4")
    as (_ & _ & Hkept & _).
  apply Hkept; [discriminate|]. vm_compute. eauto.
Defined.

(** ** Adding and naming participants *)

(** X5.  [addParticipant] appends one participant with the empty name and
    keeps the phases.  It leaves the values map alone when exactly one entry
    is active; with at least one phase the result has exactly one active
    entry, which is cell (0,0) when no entry was active before. *)
Theorem addParticipant_effect (state : State) :
  ∃ next,
    addParticipant state = Saved next
    ∧ participants next = participants state ++ [""]
    ∧ phases next = phases state
    ∧ (countActive state = 1%nat → values next = values state)
    ∧ (phases state ≠ [] → countActive next = 1%nat)
    ∧ (phases state ≠ [] → countActive state = 0%nat →
       getCellState next 0 0 = Active).
Proof.
  eexists. split; [reflexivity|].
  set (grown := mkState (participants state ++ [""]) (phases state)
                        (values state)).
  assert (countActive grown = countActive state) as Hcount
    by by apply countActive_values.
  split_and!.
  - by rewrite ensureSingleActive_participants.
  - by rewrite ensureSingleActive_phases.
  - intros Hone. rewrite ensureSingleActive_single; [done|by rewrite Hcount].
  - intros Hph. apply ensureSingleActive_grid; [|done].
    simpl. by destruct (participants state).
  - intros Hph Hzero.
    unfold getCellState.
    rewrite ensureSingleActive_lookup by (rewrite Hcount; lia).
    rewrite bool_decide_eq_true_2; [done|].
    split_and!; [|done|done]. simpl. by destruct (participants state).
Qed.

Lemma addParticipant_effect_witness :
  ∃ next, addParticipant freshState = Saved next
          ∧ getCellState next 0 0 = Active.
Proof.
  destruct (addParticipant_effect freshState)
    as (next & Hadd & _ & _ & _ & _ & Hfirst).
  exists next. split; [exact Hadd|].
  apply Hfirst; [discriminate|]. vm_compute. reflexivity.
Defined.

(** X6.  [setParticipantName] on the index of an existing participant
    replaces that name only: the number of participants, every other name,
    the phases and the values map are unchanged. *)
Theorem setParticipantName_in_range (state : State) (rowIndex : Z)
    (name : string) :
  0 ≤ rowIndex < rowCount state →
  ∃ next,
    setParticipantName state rowIndex name = Saved next
    ∧ length (participants next) = length (participants state)
    ∧ participants next !! Z.to_nat rowIndex = Some name
    ∧ (∀ i, i ≠ Z.to_nat rowIndex →
            participants next !! i = participants state !! i)
    ∧ phases next = phases state
    ∧ values next = values state.
Proof.
  intros Hr. unfold rowCount in Hr. eexists. split; [reflexivity|]. simpl.
  rewrite bool_decide_eq_false_2 by lia.
  rewrite bool_decide_eq_true_2 by lia.
  split_and!; try done.
  - apply length_insert.
  - apply list_lookup_insert_eq. lia.
  - intros i Hi. by apply list_lookup_insert_ne.
Qed.

Lemma setParticipantName_in_range_witness :
  ∃ next, setParticipantName twoPlayers 1 "Orc" = Saved next
          ∧ participants next !! 1%nat = Some "Orc".
Proof.
  destruct (setParticipantName_in_range twoPlayers 1 "Orc")
    as (next & Hset & _ & Hname & _).
  - unfold rowCount. simpl. lia.
  - exists next. split; [exact Hset|exact Hname].
Defined.

(** ** Transitions inside the grid *)

Lemma transition_advances mark state r c :
  inGrid state r c →
  getCellState state r c = Active →
  ∃ next, transition mark state r c = Some (Saved next)
          ∧ advancesTo state r c mark next.
Proof.
  intros Hin Ha.
  destruct (transition_fires mark state r c Ha) as (res & Hf & Ht).
  destruct (findNextActive_returns state r c) as (res' & Hf' & Hres).
  rewrite Hf in Hf'. injection Hf' as <-.
  destruct res as [cell|]; [|unfold inGrid in Hin; lia].
  destruct Hres as (_ & _ & Hscan).
  eexists. split; [exact Ht|]. exists cell. split; [done|].
  assert (scanBefore (r, c) (row cell, col cell)
          ∧ inGrid (activateNext state
                      (<[getCellKey r c := mark]> (values state)) (Some cell))
                   (row cell) (col cell)) as [Hlt Hgrid].
  { destruct (scan_first state _ _ _ _ Hin Hscan)
      as [(Hadd & Hcell & Hlt & _)|[-> _]].
    - split; [done|]. unfold inGrid, rowCount, colCount in *. simpl.
      by rewrite Hadd.
    - unfold scanBefore, inGrid, rowCount, colCount in *. simpl.
      rewrite length_app. simpl. split; lia. }
  assert (getCellKey r c ≠ getCellKey (row cell) (col cell)) as Hne.
  { apply getCellKey_ne. intros [= -> ->].
    unfold scanBefore in Hlt. simpl in Hlt. lia. }
  split_and!; try done.
  - unfold getCellState, activateNext. simpl. by rewrite lookup_insert_eq.
  - unfold getCellState, activateNext. simpl.
    rewrite lookup_insert_ne by done. by rewrite lookup_insert_eq.
  - intros r' c' Hself Hcell. unfold getCellState, activateNext. simpl.
    rewrite !lookup_insert_ne; [done|by apply getCellKey_ne..].
Qed.

(** X7.  On an active cell of the grid, each of [markDone], [markDead] and
    [revive] moves the turn forward: the cell acted upon gets its new state
    (dead for [markDead], revived for [revive]), the newly active cell lies
    later in turn order and inside the grid of the new state (the appended
    column included), and no other cell changes. *)
Theorem turn_moves_forward (state : State) (rowIndex colIndex : Z) :
  inGrid state rowIndex colIndex →
  getCellState state rowIndex colIndex = Active →
  (∃ next, markDone state rowIndex colIndex = Some (Saved next)
           ∧ advancesTo state rowIndex colIndex
               (if isCharacterDeadInPreviousPhase state rowIndex colIndex
                then Dead else Done) next)
  ∧ (∃ next, markDead state rowIndex colIndex = Some (Saved next)
             ∧ advancesTo state rowIndex colIndex Dead next)
  ∧ (∃ next, revive state rowIndex colIndex = Some (Saved next)
             ∧ advancesTo state rowIndex colIndex Revived next).
Proof.
  intros Hin Ha. unfold markDone, markDead, revive.
  split_and!; by apply transition_advances.
Qed.

Lemma turn_moves_forward_witness :
  ∃ next, markDead twoPlayers 0 0 = Some (Saved next)
          ∧ advancesTo twoPlayers 0 0 Dead next.
Proof.
  destruct (turn_moves_forward twoPlayers 0 0) as (_ & Hdead & _).
  - unfold inGrid, rowCount, colCount. simpl. lia.
  - vm_compute. reflexivity.
  - exact Hdead.
Defined.

(** X8.  With a participant and a phase, and no dead entry in the values
    map, the scan from a start that is a safe integer in both indices
    (magnitude below 2^53) is a plain round robin: it returns the next row
    of the same column; from the last row on, the top of the next column;
    and from there in the last column, the append signal.  The loop of the
    source, additions on doubles included, gives that answer at its first
    iteration. *)
Theorem findNextActive_round_robin (state : State) (fromRow fromCol : Z) :
  jsArrays state → isSafeInteger fromRow → isSafeInteger fromCol →
  0 < rowCount state → 0 < colCount state →
  (∀ k, values state !! k ≠ Some Dead) →
  let answer :=
    if bool_decide (rowCount state ≤ fromRow + 1)
    then if bool_decide (colCount state ≤ fromCol + 1)
         then mkNext 0 (colCount state) true
         else mkNext 0 (fromCol + 1) false
    else mkNext (fromRow + 1) fromCol false in
  findNextActive state fromRow fromCol = Some (Some answer)
  ∧ ∀ fuel, scanOnDoubles (S fuel) state fromRow fromCol = Some answer.
Proof.
  intros Harrays Hrow Hcol Hr Hc Hdead answer.
  assert (∀ r c, getCellState state r c ≠ Dead) as Hcell.
  { intros r c. unfold getCellState.
    destruct (values state !! getCellKey r c) as [s|] eqn:E; simpl; [|done].
    intros ->. by apply Hdead in E. }
  assert (∀ fuel, scan (S fuel) state fromRow fromCol = Some answer) as Hscan.
  { intros fuel. rewrite scan_S.
    rewrite (bool_decide_eq_true_2
               (getCellState state 0 (fromCol + 1) ≠ Dead)) by apply Hcell.
    rewrite (bool_decide_eq_true_2
               (getCellState state (fromRow + 1) fromCol ≠ Dead))
      by apply Hcell.
    unfold answer.
    destruct (bool_decide (rowCount state ≤ fromRow + 1));
      destruct (bool_decide (colCount state ≤ fromCol + 1)); reflexivity. }
  split.
  - unfold findNextActive. rewrite bool_decide_eq_false_2 by lia.
    pose proof (scanBudget_measure state fromRow fromCol) as Hm.
    destruct (scanBudget state fromRow fromCol) as [|fuel].
    { unfold scanMeasure in Hm. nia. }
    by rewrite Hscan.
  - intros fuel. by rewrite safe_start_exact.
Qed.

Lemma findNextActive_round_robin_witness :
  findNextActive twoPlayers 1 0 = Some (Some (mkNext 0 1 true)).
Proof.
  destruct (findNextActive_round_robin twoPlayers 1 0) as [Hanswer _].
  - unfold jsArrays, rowCount, colCount. rewrite pow_2_32. simpl. lia.
  - unfold isSafeInteger. rewrite pow_2_53. lia.
  - unfold isSafeInteger. rewrite pow_2_53. lia.
  - unfold rowCount. simpl. lia.
  - unfold colCount. simpl. lia.
  - intros k. simpl. destruct (decide (k = "0-0")) as [->|Hne].
    + rewrite lookup_singleton_eq. discriminate.
    + rewrite lookup_singleton_ne by done. discriminate.
  - exact Hanswer.
Defined.

(** ** The buttons of an active cell *)

Lemma isCharacterRevivedInAnyPhase_true state r :
  isCharacterRevivedInAnyPhase state r = true
  ↔ ∃ c, 0 ≤ c < colCount state ∧ getCellState state r c = Revived.
Proof.
  unfold isCharacterRevivedInAnyPhase. rewrite existsb_exists. split.
  - intros (c & Hin & Hd). apply list_elem_of_In, elem_of_seqZ in Hin.
    apply bool_decide_eq_true in Hd. exists c. split; [lia|done].
  - intros (c & Hin & Hd). exists c. split.
    + apply list_elem_of_In, elem_of_seqZ. lia.
    + by apply bool_decide_eq_true.
Qed.

(** X9.  An active cell shows the Done button and exactly one more: Revive
    when the row is dead at an earlier column and revived at no column of
    the grid, and Dead otherwise. *)
Theorem active_cell_buttons (state : State) (rowIndex colIndex : Z) :
  getCellState state rowIndex colIndex = Active →
  (renderCell state rowIndex colIndex = ShowActions true
   ↔ deadEarlier state rowIndex colIndex
     ∧ ∀ c, 0 ≤ c < colCount state → getCellState state rowIndex c ≠ Revived)
  ∧ (renderCell state rowIndex colIndex = ShowActions false
     ↔ ¬ (deadEarlier state rowIndex colIndex
          ∧ ∀ c, 0 ≤ c < colCount state →
                 getCellState state rowIndex c ≠ Revived)).
Proof.
  intros Ha. unfold renderCell. rewrite Ha.
  pose proof (isCharacterDeadInPreviousPhase_true state rowIndex colIndex)
    as Hdead.
  pose proof (isCharacterRevivedInAnyPhase_true state rowIndex) as Hrev.
  destruct (isCharacterDeadInPreviousPhase state rowIndex colIndex);
    destruct (isCharacterRevivedInAnyPhase state rowIndex); simpl.
  - assert (∃ c, 0 ≤ c < colCount state
                 ∧ getCellState state rowIndex c = Revived)
      as (c & Hc & Hr) by by apply Hrev.
    split; split; try done.
    + intros [_ Hno]. by destruct (Hno c Hc).
    + intros _ [_ Hno]. by destruct (Hno c Hc).
  - assert (∀ c, 0 ≤ c < colCount state
                 → getCellState state rowIndex c ≠ Revived) as Hno.
    { intros c Hc Hr. assert (false = true); [|done]. apply Hrev. eauto. }
    split; split; try done.
    + intros _. split; [by apply Hdead|done].
    + intros Hn. destruct Hn. split; [by apply Hdead|done].
  - split; split; try done.
    + intros [Hd _]. apply Hdead in Hd. done.
    + intros _ [Hd _]. apply Hdead in Hd. done.
  - split; split; try done.
    + intros [Hd _]. apply Hdead in Hd. done.
    + intros _ [Hd _]. apply Hdead in Hd. done.
Qed.

Lemma active_cell_buttons_witness :
  renderCell (mkState ["A"] ["Phase 1"; "Phase 2"]
                      (<["0-0" := Dead]> {[ "0-1" := Active ]})) 0 1
  = ShowActions true.
Proof.
  destruct (active_cell_buttons
              (mkState ["A"] ["Phase 1"; "Phase 2"]
                       (<["0-0" := Dead]> {[ "0-1" := Active ]})) 0 1)
    as [Hrevive _].
  - vm_compute. reflexivity.
  - apply (proj2 Hrevive). split.
    + exists 0. split; [lia|]. vm_compute. reflexivity.
    + intros c Hc. unfold colCount in Hc. simpl in Hc.
      assert (c = 0 ∨ c = 1) as [-> | ->] by lia; vm_compute; discriminate.
Defined.

(** ** Clicks on the screen *)

Lemma renderCell_actions state r c b :
  renderCell state r c = ShowActions b → getCellState state r c = Active.
Proof.
  unfold renderCell. destruct (getCellState state r c); try done.
  by destruct (showAsDone state r c).
Qed.

Lemma transition_saves mark state r c eff :
  getCellState state r c = Active →
  transition mark state r c = Some eff →
  ∃ next, eff = Saved next.
Proof.
  intros Ha Ht. destruct (transition_fires mark state r c Ha) as (res & _ & Ht').
  rewrite Ht' in Ht. injection Ht as <-. eauto.
Qed.

Lemma click_step s e s' :
  rendered s e = true → onClick e s = Some s' → stepKind s e s'.
Proof.
  destruct s as [w flag]. destruct e; simpl; intros Hr Hc.
  - injection Hc as <-. apply step_add.
  - injection Hc as <-. apply bool_decide_eq_true in Hr.
    unfold withWorld, setParticipantName. simpl.
    unfold rowCount in Hr.
    rewrite bool_decide_eq_false_2 by lia.
    rewrite bool_decide_eq_true_2 by lia.
    by apply (step_name (mkScreen w flag)).
  - apply andb_prop in Hr as [Hin%bool_decide_eq_true Ha%bool_decide_eq_true].
    destruct (markDone (current w) rowIndex colIndex) as [eff|] eqn:E;
      [|done].
    injection Hc as <-. unfold markDone in E.
    destruct (transition_saves _ _ _ _ _ Ha E) as [next ->].
    eapply (step_turn (mkScreen w flag)); [| | |done|done|exact E].
    + set_solver.
    + by case_match.
    + done.
  - apply andb_prop in Hr as [Hin%bool_decide_eq_true Hv%bool_decide_eq_true].
    pose proof (renderCell_actions _ _ _ _ Hv) as Ha.
    destruct (revive (current w) rowIndex colIndex) as [eff|] eqn:E; [|done].
    injection Hc as <-. unfold revive in E.
    destruct (transition_saves _ _ _ _ _ Ha E) as [next ->].
    eapply (step_turn (mkScreen w flag)); [| | |done|done|exact E].
    + set_solver.
    + done.
    + done.
  - apply andb_prop in Hr as [Hin%bool_decide_eq_true Hv%bool_decide_eq_true].
    pose proof (renderCell_actions _ _ _ _ Hv) as Ha.
    destruct (markDead (current w) rowIndex colIndex) as [eff|] eqn:E; [|done].
    injection Hc as <-. unfold markDead in E.
    destruct (transition_saves _ _ _ _ _ Ha E) as [next ->].
    eapply (step_turn (mkScreen w flag)); [| | |done|done|exact E].
    + set_solver.
    + done.
    + done.
  - injection Hc as <-. destruct (hasData (current w)) eqn:Hd.
    + apply (step_dialog (mkScreen w flag)); [set_solver|auto].
    + apply (step_dialog (mkScreen w flag)); [set_solver|auto].
  - injection Hc as <-.
    apply (step_dialog (mkScreen w flag) ClickOverlay false); [set_solver|done].
  - injection Hc as <-.
    apply (step_dialog (mkScreen w flag) ClickCancel false); [set_solver|done].
  - injection Hc as <-.
    apply (step_clear (mkScreen w flag)). exact Hr.
Qed.

Lemma runClicks_cons e es s s' :
  runClicks (e :: es) s = Some s' →
  rendered s e = true
  ∧ ∃ s1, onClick e s = Some s1 ∧ runClicks es s1 = Some s'.
Proof.
  change (runClicks (e :: es) s)
    with (if rendered s e then s1 ← onClick e s; runClicks es s1 else None).
  destruct (rendered s e); [|done].
  destruct (onClick e s) as [s1|]; [|done]. simpl. eauto.
Qed.

(** An invariant of the steps is an invariant of the runs. *)
Lemma runClicks_invariant (ok : Click → Prop) (I : Screen → Prop) :
  (∀ s e s', ok e → stepKind s e s' → I s → I s') →
  ∀ es s s', Forall ok es → runClicks es s = Some s' → I s → I s'.
Proof.
  intros Hstep es. induction es as [|e es IH]; intros s s' Hok Hrun HI.
  { simpl in Hrun. by injection Hrun as <-. }
  apply Forall_cons in Hok as [Hoke Hok]. simpl in Hrun.
  destruct (rendered s e) eqn:Hr; [|done].
  destruct (onClick e s) as [s1|] eqn:Hc; [|done]. simpl in Hrun.
  apply (IH s1 s' Hok Hrun). apply (Hstep s e s1 Hoke); [|done].
  by apply click_step.
Qed.

(** ** Invariants of a session on screen *)

Lemma roundtrip_settled state storage :
  storage ≠ NoWindow → settled state →
  values state !! "__proto__" = None →
  loadStateFromStorage (saveStateToStorage state storage) = state.
Proof.
  intros Hw [Hph Hcount] Hnone.
  assert (loadStateFromStorage (saveStateToStorage state storage)
          = ensureSingleActive (parseStored (toStored state))) as ->.
  { by destruct storage. }
  rewrite parseStored_toStored by done. apply ensureSingleActive_fixed.
  destruct Hcount as [?|[? ?]]; auto.
Qed.

Lemma save_keeps_window state storage :
  storage ≠ NoWindow → saveStateToStorage state storage ≠ NoWindow.
Proof. by destruct storage. Qed.

Lemma inPlay_settled state : inPlay state → settled state.
Proof.
  intros [Hph [[Hp Hzero]|[Hone _]]]; split; auto.
Qed.

Lemma active_counted state r c :
  getCellState state r c = Active → countActive state ≠ 0%nat.
Proof.
  intros Ha%getCellState_active Hzero.
  by apply (proj1 (countActive_zero state) Hzero) in Ha.
Qed.

Lemma settled_fresh : settled freshState.
Proof. split; [done|]. right. split; [apply countActive_fresh|done]. Qed.

Lemma transition_in_play mark state r c next :
  mark ≠ Active →
  inGrid state r c →
  getCellState state r c = Active →
  (countActive state ≤ 1)%nat →
  phases state ≠ [] →
  transition mark state r c = Some (Saved next) →
  inPlay next ∧ advancesTo state r c mark next.
Proof.
  intros Hmark Hin Ha Hle Hph Ht.
  destruct (transition_advances mark state r c Hin Ha) as (next' & Ht' & Hadv).
  rewrite Ht in Ht'. injection Ht' as <-. split; [|done].
  destruct Hadv as (cell & _ & _ & Hgrid & Hact & _ & _ & _ & Hphases).
  split.
  - rewrite Hphases. destruct (addPhase cell); [|done].
    by destruct (phases state).
  - right. split; [|eauto].
    pose proof (transition_le_one mark state r c next Hmark Hle Ht).
    pose proof (active_counted next _ _ Hact). lia.
Qed.

Lemma step_settled s e s' :
  stepKind s e s' →
  settled (current (world s)) → settled (current (world s')).
Proof.
  intros Hstep [Hph Hcount].
  destruct Hstep as [e flag _ _| |r name Hr|e r c mark next _ Hmark _ Hin Ha Ht|_];
    simpl.
  - done.
  - split; [by rewrite ensureSingleActive_phases|]. left.
    apply ensureSingleActive_grid; [|done].
    simpl. by destruct (participants (current (world s))).
  - split; [done|]. simpl.
    assert (countActive
              (mkState (<[Z.to_nat r := name]> (participants (current (world s))))
                       (phases (current (world s)))
                       (values (current (world s))))
            = countActive (current (world s))) as ->
      by by apply countActive_values.
    destruct Hcount as [?|[_ Hp]]; [by left|].
    unfold rowCount in Hr. rewrite Hp in Hr. simpl in Hr. lia.
  - apply inPlay_settled.
    apply (transition_in_play mark (current (world s)) r c next); try done.
    destruct Hcount as [->|[-> _]]; lia.
  - apply settled_fresh.
Qed.

Lemma step_no_proto s e s' :
  stepKind s e s' →
  values (current (world s)) !! "__proto__" = None →
  values (current (world s')) !! "__proto__" = None.
Proof.
  intros Hstep Hnone.
  destruct Hstep as [e flag _ _| |r name Hr|e r c mark next _ Hmark _ Hin Ha Ht|_];
    simpl; try done.
  - by apply ensureSingleActive_proto.
  - destruct (transition_fires mark _ r c Ha) as (res & _ & Ht').
    rewrite Ht in Ht'. injection Ht' as ->.
    unfold activateNext. destruct res as [cell|]; simpl.
    + rewrite !lookup_insert_ne; [done|apply getCellKey_not_proto..].
    + rewrite lookup_insert_ne; [done|apply getCellKey_not_proto].
Qed.

(** X10.  The storage mirrors the screen.  After the mount and any run of
    clicks on elements that are on the page, loading what session storage
    holds returns exactly the state on screen: every handler that changes
    the state writes it, and what it writes is a state the load-time repair
    leaves alone. *)
Theorem storage_mirrors_screen (storage : Storage) (es : list Click)
    (s : Screen) :
  storage ≠ NoWindow →
  runClicks es (mounted storage) = Some s →
  loadStateFromStorage (session (world s)) = current (world s)
  ∧ settled (current (world s)).
Proof.
  intros Hw Hrun.
  cut (session (world s) ≠ NoWindow
       ∧ settled (current (world s))
       ∧ values (current (world s)) !! "__proto__" = None
       ∧ loadStateFromStorage (session (world s)) = current (world s)).
  { intros (_ & ? & _ & ?). done. }
  eapply (runClicks_invariant (λ _, True)
            (λ s, session (world s) ≠ NoWindow
                  ∧ settled (current (world s))
                  ∧ values (current (world s)) !! "__proto__" = None
                  ∧ loadStateFromStorage (session (world s))
                    = current (world s)));
    [| |exact Hrun|].
  - intros s0 e s1 _ Hstep (Hw0 & Hset & Hnone & Hmirror).
    pose proof (step_settled s0 e s1 Hstep Hset) as Hset1.
    pose proof (step_no_proto s0 e s1 Hstep Hnone) as Hnone1.
    destruct Hstep; simpl in *;
      try (split_and!;
           [by apply save_keeps_window|done|done
           |by apply roundtrip_settled]).
    done.
  - by apply Forall_forall.
  - simpl. split_and!; [done|apply load_settled|apply load_no_proto|done].
Qed.

Lemma storage_mirrors_screen_witness :
  ∃ s, runClicks [ClickAddRow; ClickDone 0 0] (mounted NoItem) = Some s
       ∧ loadStateFromStorage (session (world s)) = current (world s).
Proof.
  eexists. split; [vm_compute; reflexivity|].
  apply (storage_mirrors_screen NoItem [ClickAddRow; ClickDone 0 0]);
    [discriminate|vm_compute; reflexivity].
Defined.

Lemma inGrid_grows state next r c :
  inGrid state r c →
  (length (participants state) ≤ length (participants next))%nat →
  (length (phases state) ≤ length (phases next))%nat →
  inGrid next r c.
Proof. unfold inGrid, rowCount, colCount. lia. Qed.

Lemma getCellState_values s1 s2 r c :
  values s1 = values s2 → getCellState s1 r c = getCellState s2 r c.
Proof. unfold getCellState. by intros ->. Qed.




(** ** The highlighted row *)

Lemma isRowActive_true state r :
  isRowActive state r = true
  ↔ ∃ c, 0 ≤ c < colCount state ∧ getCellState state r c = Active.
Proof.
  unfold isRowActive. rewrite existsb_exists. split.
  - intros (c & Hin & Hd). apply list_elem_of_In, elem_of_seqZ in Hin.
    apply bool_decide_eq_true in Hd. exists c. split; [lia|done].
  - intros (c & Hin & Hd). exists c. split.
    + apply list_elem_of_In, elem_of_seqZ. lia.
    + by apply bool_decide_eq_true.
Qed.

(** X12.  In a session in play with at least one participant exactly one
    row is highlighted: [isRowActive] holds of the row of the active cell
    and of no other row index. *)
Theorem one_row_highlighted (state : State) :
  inPlay state →
  participants state ≠ [] →
  ∃ r0, 0 ≤ r0 < rowCount state
        ∧ ∀ r, isRowActive state r = true ↔ r = r0.
Proof.
  intros [_ [[? _]|[Hone (r0 & c0 & Hin & Ha)]]] Hp; [done|].
  exists r0. split; [apply Hin|]. intros r. rewrite isRowActive_true. split.
  - intros (c & _ & Ha'). apply getCellState_active in Ha, Ha'.
    assert (getCellKey r c = getCellKey r0 c0) as [? _]%getCellKey_inj; [|done].
    apply (countActive_le_one state); [lia|done..].
  - intros ->. exists c0. split; [apply Hin|done].
Qed.

Lemma one_row_highlighted_witness :
  ∃ r0, ∀ r, isRowActive twoPlayers r = true ↔ r = r0.
Proof.
  destruct (one_row_highlighted twoPlayers) as (r0 & _ & Hrow).
  - split; [done|]. right. split; [vm_compute; reflexivity|].
    exists 0, 0. split; [|vm_compute; reflexivity].
    unfold inGrid, rowCount, colCount. simpl. lia.
  - done.
  - exists r0. exact Hrow.
Defined.

(** ** Column titles *)

Lemma phaseLabels_S n : phaseLabels (S n) = phaseLabels n ++ [phaseLabel n].
Proof. unfold phaseLabels. by rewrite seq_S, fmap_app. Qed.

Lemma step_titled s e s' :
  stepKind s e s' →
  titled (current (world s)) → titled (current (world s')).
Proof.
  unfold titled. intros Hstep Ht.
  destruct Hstep as [e flag _ _| |r name Hr|e r c mark next _ Hmark _ Hin Ha Htr|_];
    simpl; try done.
  - by rewrite ensureSingleActive_phases.
  - destruct (transition_advances mark _ r c Hin Ha) as (next' & Htr' & Hadv).
    rewrite Htr in Htr'. injection Htr' as <-.
    destruct Hadv as (cell & _ & _ & _ & _ & _ & _ & _ & ->).
    destruct (addPhase cell); [|done].
    rewrite length_app. simpl. rewrite Nat.add_1_r, phaseLabels_S.
    by rewrite <-Ht.
Qed.

(** X13.  The column titles stay numbered.  If the phases on screen are
    "Phase 1", "Phase 2", ... in order (as in the fresh session), they are
    so after every run of clicks: a phase is only ever appended, under the
    title of its position, and the reset goes back to "Phase 1". *)
Theorem titles_stay_numbered (s0 : Screen) (es : list Click) (s : Screen) :
  titled (current (world s0)) →
  runClicks es s0 = Some s →
  titled (current (world s)).
Proof.
  intros Ht Hrun.
  eapply (runClicks_invariant (λ _, True) (λ s, titled (current (world s))));
    [| |exact Hrun|done].
  - intros s1 e s2 _ Hstep. by apply (step_titled s1 e s2).
  - by apply Forall_forall.
Qed.

Lemma titles_stay_numbered_witness :
  ∃ s, runClicks [ClickAddRow; ClickDone 0 0; ClickDone 0 1] (mounted NoItem)
       = Some s
       ∧ phases (current (world s)) = ["Phase 1"; "Phase 2"; "Phase 3"].
Proof.
  eexists. split; [vm_compute; reflexivity|].
  apply (titles_stay_numbered (mounted NoItem)
           [ClickAddRow; ClickDone 0 0; ClickDone 0 1]);
    vm_compute; reflexivity.
Defined.

(** ** The reset dialog *)

Lemma hasData_rows state :
  participants state ≠ [] → hasData state = true.
Proof.
  intros Hp. unfold hasData. rewrite bool_decide_eq_true_2; [done|].
  destruct (participants state); simpl; [done|lia].
Qed.

Lemma step_has_data s e s' :
  stepKind s e s' →
  (resetDialogOpen s = true → hasData (current (world s)) = true) →
  resetDialogOpen s' = true → hasData (current (world s')) = true.
Proof.
  intros Hstep Hinv.
  destruct Hstep as [e flag _ Hflag| |r name Hr|e r c mark next _ Hmark _ Hin Ha Ht|_];
    simpl; intros Hopen.
  - destruct (Hflag Hopen); auto.
  - apply hasData_rows. rewrite ensureSingleActive_participants. simpl.
    by destruct (participants (current (world s))).
  - apply hasData_rows. simpl. intros Hnil.
    apply (f_equal length) in Hnil. rewrite length_insert in Hnil.
    unfold rowCount in Hr. simpl in Hnil. lia.
  - destruct (transition_advances mark _ r c Hin Ha) as (next' & Ht' & Hadv).
    rewrite Ht in Ht'. injection Ht' as <-.
    destruct Hadv as (cell & _ & _ & _ & _ & _ & _ & Hp & _).
    apply hasData_rows. rewrite Hp. intros Hnil.
    unfold inGrid, rowCount in Hin. rewrite Hnil in Hin. simpl in Hin. lia.
  - done.
Qed.

(** X14.  The reset asks first, and only when there is something to
    clear.  After the mount and any run of clicks, the parts of the dialog
    (overlay, Cancel, Clear) are on the page only while the tracker has
    data; the overlay and Cancel close the dialog and leave state and
    storage alone; Clear saves the fresh state and closes the dialog; and
    the Reset button does nothing on a tracker without data. *)
Theorem reset_asks_first (storage : Storage) (es : list Click) (s : Screen) :
  runClicks es (mounted storage) = Some s →
  (∀ e, e ∈ [ClickOverlay; ClickCancel; ClickClear] →
        rendered s e = true → hasData (current (world s)) = true)
  ∧ (∀ e, e ∈ [ClickOverlay; ClickCancel] →
          onClick e s = Some (mkScreen (world s) false))
  ∧ onClick ClickClear s = Some (mkScreen (save freshState (world s)) false)
  ∧ (hasData (current (world s)) = false →
     onClick ClickResetButton s = Some s).
Proof.
  intros Hrun.
  assert (resetDialogOpen s = true → hasData (current (world s)) = true)
    as Hinv.
  { eapply (runClicks_invariant (λ _, True)
              (λ s, resetDialogOpen s = true
                    → hasData (current (world s)) = true));
      [| |exact Hrun|done].
    - intros s1 e s2 _ Hstep. by apply (step_has_data s1 e s2).
    - by apply Forall_forall. }
  split_and!.
  - intros e He Hr. apply Hinv.
    apply elem_of_cons in He as [->|He]; [done|].
    apply elem_of_cons in He as [->|He]; [done|].
    apply list_elem_of_singleton in He as ->. done.
  - intros e He.
    apply elem_of_cons in He as [->|He]; [done|].
    apply list_elem_of_singleton in He as ->. done.
  - done.
  - intros Hd. simpl. by rewrite Hd.
Qed.

Lemma reset_asks_first_witness :
  ∃ s, runClicks [ClickResetButton; ClickAddRow; ClickResetButton]
                 (mounted NoItem) = Some s
       ∧ resetDialogOpen s = true
       ∧ hasData (current (world s)) = true.
Proof.
  eexists. split; [vm_compute; reflexivity|]. split; [reflexivity|].
  destruct (reset_asks_first NoItem
              [ClickResetButton; ClickAddRow; ClickResetButton] _
              ltac:(vm_compute; reflexivity)) as (Hshown & _).
  apply (Hshown ClickClear); [set_solver|reflexivity].
Defined.

(** ** Revive is offered once *)

Lemma reviveSpent_no_offer r0 c0 s :
  reviveSpent r0 c0 (current (world s)) →
  ∀ c, rendered s (ClickRevive r0 c) = false.
Proof.
  intros (Hin & Hrev & _) c. simpl.
  assert (isCharacterRevivedInAnyPhase (current (world s)) r0 = true) as Hany.
  { apply isCharacterRevivedInAnyPhase_true. exists c0. split; [apply Hin|done]. }
  rewrite (bool_decide_eq_false_2 (renderCell _ _ _ = _)); [apply andb_false_r|].
  unfold renderCell. rewrite Hany, andb_false_r.
  destruct (getCellState (current (world s)) r0 c); try done.
  by destruct (showAsDone (current (world s)) r0 c).
Qed.

Lemma step_revive_spent r0 c0 s e s' :
  e ≠ ClickClear →
  stepKind s e s' →
  reviveSpent r0 c0 (current (world s)) →
  reviveSpent r0 c0 (current (world s')).
Proof.
  intros Hne Hstep (Hin0 & Hrev & Hone & ra & ca & Hina & Haa & Hlt).
  destruct Hstep as [e flag _ _| |r name Hr|e r c mark next _ Hmark _ Hin Ha Ht|_];
    simpl; [| | | |done].
  - unfold reviveSpent. eauto 10.
  - set (state := current (world s)) in *.
    set (grown := mkState (participants state ++ [""]) (phases state)
                          (values state)).
    assert (countActive grown = 1%nat) as Hcount
      by (rewrite <-Hone; by apply countActive_values).
    rewrite ensureSingleActive_single by done.
    assert (∀ r c, inGrid state r c → inGrid grown r c) as Hgrow.
    { intros r c ?. apply (inGrid_grows state); [done|simpl|done].
      rewrite length_app. lia. }
    split_and!; [by apply Hgrow|done|done|].
    exists ra, ca. split_and!; [by apply Hgrow|done|done].
  - set (state := current (world s)) in *.
    set (named := mkState (<[Z.to_nat r := name]> (participants state))
                          (phases state) (values state)).
    assert (∀ r c, inGrid state r c → inGrid named r c) as Hgrow.
    { intros r' c' ?. apply (inGrid_grows state); [done|simpl|done].
      by rewrite length_insert. }
    split_and!; [by apply Hgrow|done| |].
    + rewrite <-Hone. by apply countActive_values.
    + exists ra, ca. split_and!; [by apply Hgrow|done|done].
  - set (state := current (world s)) in *.
    assert (r = ra ∧ c = ca) as [-> ->].
    { apply getCellState_active in Ha, Haa.
      apply getCellKey_inj, (countActive_le_one state); [lia|done..]. }
    destruct (transition_in_play mark state ra ca next)
      as [Hplay (cell & _ & Hfwd & Hgrid & Hact & _ & Hframe & Hp & Hphases)];
      [done|done|done|lia| |done|].
    { intros Hnil. unfold inGrid, colCount in Hin. rewrite Hnil in Hin.
      simpl in Hin. lia. }
    assert (scanBefore (r0, c0) (row cell, col cell)) as Hlt'.
    { unfold scanBefore in *. simpl in *. lia. }
    split_and!.
    + apply (inGrid_grows state); [done|by rewrite Hp|].
      rewrite Hphases. destruct (addPhase cell); [|done].
      rewrite length_app. lia.
    + rewrite Hframe; [done| |].
      * intros [= -> ->]. unfold scanBefore in Hlt. simpl in Hlt. lia.
      * intros [= -> ->]. unfold scanBefore in Hlt'. simpl in Hlt'. lia.
    + destruct Hplay as [_ [[Hnil _]|[? _]]]; [|done].
      rewrite Hp in Hnil. unfold inGrid, rowCount in Hin.
      rewrite Hnil in Hin. simpl in Hin. lia.
    + exists (row cell), (col cell). done.
Qed.

(** X15.  Revive is offered once.  In a session in play, after a click on
    the Revive button of a cell, no cell of that row shows the Revive button
    again, whatever is clicked next, until the tracker is cleared. *)
Theorem revive_offered_once (s : Screen) (r0 c0 : Z) (es : list Click)
    (s' : Screen) :
  inPlay (current (world s)) →
  ClickClear ∉ es →
  runClicks (ClickRevive r0 c0 :: es) s = Some s' →
  ∀ c, rendered s' (ClickRevive r0 c) = false.
Proof.
  intros Hplay Hclear Hrun. apply (reviveSpent_no_offer r0 c0).
  apply runClicks_cons in Hrun as (Hr & s1 & Hc & Hrun).
  assert (reviveSpent r0 c0 (current (world s1))) as Hspent.
  { pose proof (click_step s (ClickRevive r0 c0) s1 Hr Hc) as Hstep.
    inversion Hstep as [e flag He _| | |e r c mark next He Hmark Hrv Hin Ha Ht|];
      subst.
    { apply elem_of_cons in He as [?|He]; [done|].
      apply elem_of_cons in He as [?|He]; [done|].
      by apply list_elem_of_singleton in He. }
    assert (r = r0 ∧ c = c0) as [-> ->].
    { apply elem_of_cons in He as [?|He]; [done|].
      apply elem_of_cons in He as [[= -> ->]|He]; [done|].
      by apply list_elem_of_singleton in He. }
    destruct (Hrv eq_refl) as [-> _]. simpl.
    destruct Hplay as [Hph Hcases].
    destruct (transition_in_play Revived (current (world s)) r0 c0 next)
      as [Hplay1 (cell & _ & Hfwd & Hgrid & Hact & Hmarked & _ & Hp & Hphases)];
      [done|done|done| |done|done|].
    { destruct Hcases as [[_ ->]|[-> _]]; lia. }
    split_and!.
    - apply (inGrid_grows (current (world s))); [done|by rewrite Hp|].
      rewrite Hphases. destruct (addPhase cell); [|done].
      rewrite length_app. lia.
    - done.
    - destruct Hplay1 as [_ [[Hnil _]|[? _]]]; [|done].
      rewrite Hp in Hnil. unfold inGrid, rowCount in Hin.
      rewrite Hnil in Hin. simpl in Hin. lia.
    - exists (row cell), (col cell). done. }
  eapply (runClicks_invariant (λ e, e ≠ ClickClear)
            (λ s, reviveSpent r0 c0 (current (world s))));
    [| |exact Hrun|done].
  - intros s2 e s3 He Hstep. by apply (step_revive_spent r0 c0 s2 e s3).
  - apply Forall_forall. intros e He ->. done.
Qed.

Lemma revive_offered_once_witness :
  ∃ s', runClicks [ClickRevive 0 1; ClickDone 0 2] revivable = Some s'
        ∧ rendered s' (ClickRevive 0 3) = false.
Proof.
  eexists. split; [vm_compute; reflexivity|].
  apply (revive_offered_once revivable 0 1 [ClickDone 0 2]).
  - split; [done|]. right. split; [vm_compute; reflexivity|].
    exists 0, 1. split; [|vm_compute; reflexivity].
    unfold inGrid, rowCount, colCount. simpl. lia.
  - intros He. apply list_elem_of_singleton in He. discriminate.
  - vm_compute. reflexivity.
Defined.

(** ** The dialog component *)

Section dialog.
Context {P : Type}.
Implicit Types (props : AlertDialog.Props (P := P)) (st : P * bool).

Lemma clicks_snoc props parts part st :
  AlertDialog.clicks props (parts ++ [part]) st
  = AlertDialog.click props part None (AlertDialog.clicks props parts st).
Proof. unfold AlertDialog.clicks. by rewrite foldl_app. Qed.

(** X16.  The dialog follows the last click.  Whether the open state is
    kept by the component ([open] never passed) or by the caller (an
    [onOpenChange] that makes [open] the value it is given), after any
    non-empty run of clicks on its parts the content is shown exactly when
    the last click was on the trigger: overlay, Cancel and Action close. *)
Theorem dialog_follows_last_click props (parts : list AlertDialog.Part) st :
  (∀ p, AlertDialog.open props p = None)
  ∨ (∃ change, AlertDialog.onOpenChange props = Some change
               ∧ (∀ p, is_Some (AlertDialog.open props p))
               ∧ ∀ v p, AlertDialog.open props (change v p) = Some v) →
  parts ≠ [] →
  AlertDialog.contentShown props (AlertDialog.clicks props parts st)
  = bool_decide (last parts = Some AlertDialog.Trigger).
Proof.
  intros Hmode Hparts.
  destruct parts as [|part parts _] using rev_ind; [done|].
  rewrite clicks_snoc, last_snoc.
  set (st' := AlertDialog.clicks props parts st).
  unfold AlertDialog.contentShown, AlertDialog.isOpen, AlertDialog.click.
  destruct Hmode as [Hnone|(change & Hchange & Hsome & Hkeeps)].
  - rewrite bool_decide_eq_false_2
      by (rewrite Hnone; by intros [? ?]).
    simpl. rewrite Hnone. by destruct part.
  - rewrite bool_decide_eq_true_2 by apply Hsome.
    rewrite Hchange. simpl. rewrite Hkeeps. by destruct part.
Qed.

(** X17.  A dialog whose [open] is passed without an [onOpenChange] is
    inert: no click on any of its parts changes the caller's state or what
    is shown. *)
Theorem dialog_without_handler_inert props (parts : list AlertDialog.Part) st :
  (∀ p, is_Some (AlertDialog.open props p)) →
  AlertDialog.onOpenChange props = None →
  AlertDialog.clicks props parts st = st.
Proof.
  intros Hsome Hnone. revert st.
  induction parts as [|part parts IH]; intros st; [done|].
  unfold AlertDialog.clicks in *. simpl. rewrite <-(IH st) at 2.
  f_equal. unfold AlertDialog.click.
  rewrite bool_decide_eq_true_2 by apply Hsome. rewrite Hnone.
  destruct st, part; reflexivity.
Qed.

End dialog.

Lemma dialog_follows_last_click_witness :
  AlertDialog.contentShown resetDialog
    (AlertDialog.clicks resetDialog
       [AlertDialog.Trigger; AlertDialog.Cancel; AlertDialog.Trigger]
       (mounted NoItem, false))
  = true.
Proof.
  rewrite dialog_follows_last_click; [reflexivity| |discriminate].
  right. eexists. split; [reflexivity|]. split; [|reflexivity].
  intros p. simpl. eauto.
Defined.

Lemma dialog_without_handler_inert_witness :
  AlertDialog.clicks
    (AlertDialog.mkProps (λ _ : nat, Some true) None)
    [AlertDialog.Overlay; AlertDialog.Cancel] (7%nat, false)
  = (7%nat, false).
Proof.
  apply dialog_without_handler_inert; [|reflexivity].
  intros p. simpl. eauto.
Defined.

(** ** The plain grid *)

(** X18.  In the plain grid a cell reads back what was written into it:
    after [setCellValue] with any text, the empty text included,
    [getCellValue] on that cell gives that text and every other cell reads
    as before; writing the empty text removes the entry from the values
    map; participants and phases are untouched. *)
Theorem plain_cell_reads_back (state : Plain.State) (rowIndex colIndex : Z)
    (value : string) :
  ∃ next,
    Plain.setCellValue state rowIndex colIndex value = Plain.Saved next
    ∧ Plain.getCellValue next rowIndex colIndex = value
    ∧ (∀ r c, (r, c) ≠ (rowIndex, colIndex) →
              Plain.getCellValue next r c = Plain.getCellValue state r c)
    ∧ (Plain.values next !! getCellKey rowIndex colIndex
       = if decide (value = "") then None else Some value)
    ∧ Plain.participants next = Plain.participants state
    ∧ Plain.phases next = Plain.phases state.
Proof.
  eexists. split; [reflexivity|]. unfold Plain.getCellValue. simpl.
  case_decide as Hv.
  - subst value. split_and!; try done.
    + by rewrite lookup_delete_eq.
    + intros r c Hne. rewrite lookup_delete_ne; [done|].
      by apply getCellKey_ne.
    + by rewrite lookup_delete_eq.
  - split_and!; try done.
    + by rewrite lookup_insert_eq.
    + intros r c Hne. rewrite lookup_insert_ne; [done|].
      by apply getCellKey_ne.
    + by rewrite lookup_insert_eq.
Qed.

Lemma plain_phaseLabel n :
  "Phase " +:+ pretty (Z.of_nat (n + 1)) = phaseLabel n.
Proof. unfold phaseLabel. by rewrite Nat2Z.inj_add. Qed.

(** X19.  In the plain grid the Add phase button numbers the columns: if
    the phases are titled "Phase 1", "Phase 2", ... in order (as when there
    are none), then after any number of [addPhase] they still are, with that
    many more columns; participants and values are untouched. *)
Theorem plain_addPhase_numbers (k : nat) (state : Plain.State) :
  Plain.phases state = phaseLabels (length (Plain.phases state)) →
  let final :=
    Nat.iter k (λ st, Plain.after (Plain.addPhase st) st) state in
  Plain.phases final = phaseLabels (length (Plain.phases state) + k)
  ∧ Plain.participants final = Plain.participants state
  ∧ Plain.values final = Plain.values state.
Proof.
  intros Ht final. subst final.
  induction k as [|k (IHph & IHp & IHv)].
  { simpl. rewrite Nat.add_0_r. done. }
  change (Nat.iter (S k) (λ st, Plain.after (Plain.addPhase st) st) state)
    with (Plain.after
            (Plain.addPhase
               (Nat.iter k (λ st, Plain.after (Plain.addPhase st) st) state))
            (Nat.iter k (λ st, Plain.after (Plain.addPhase st) st) state)).
  revert IHph IHp IHv.
  generalize (Nat.iter k (λ st, Plain.after (Plain.addPhase st) st) state).
  intros prev IHph IHp IHv. simpl. split_and!; [|done..].
  rewrite IHph, plain_phaseLabel.
  assert (length (phaseLabels (length (Plain.phases state) + k))
          = (length (Plain.phases state) + k)%nat) as ->.
  { unfold phaseLabels. by rewrite length_fmap, length_seq. }
  rewrite <-phaseLabels_S. f_equal. lia.
Qed.

Lemma plain_addPhase_numbers_witness :
  Plain.phases
    (Nat.iter 3 (λ st, Plain.after (Plain.addPhase st) st) Plain.emptyState)
  = ["Phase 1"; "Phase 2"; "Phase 3"].
Proof.
  apply (plain_addPhase_numbers 3 Plain.emptyState). reflexivity.
Defined.

(** ** Keys and names *)

(** X20.  Cell keys name cells: for integer indices, two positions have
    the same key exactly when they are the same position, so no two cells
    share an entry of the values map. *)
Theorem cell_keys_distinct (r1 c1 r2 c2 : Z) :
  getCellKey r1 c1 = getCellKey r2 c2 ↔ r1 = r2 ∧ c1 = c2.
Proof.
  split; [apply getCellKey_inj|]. by intros [-> ->].
Qed.

Lemma scan_withNames names state fuel r c :
  length names = length (participants state) →
  scan fuel (withNames names state) r c = scan fuel state r c.
Proof.
  intros Hlen. revert r c. induction fuel as [|fuel IH]; intros r c; [done|].
  rewrite !scan_S.
  assert (rowCount (withNames names state) = rowCount state) as ->
    by (unfold rowCount; simpl; by rewrite Hlen).
  by rewrite !IH.
Qed.

Lemma findNextActive_withNames names state r c :
  length names = length (participants state) →
  findNextActive (withNames names state) r c = findNextActive state r c.
Proof.
  intros Hlen. unfold findNextActive, scanBudget, scanMeasure.
  assert (rowCount (withNames names state) = rowCount state) as Hrows
    by (unfold rowCount; simpl; by rewrite Hlen).
  rewrite scan_withNames by done. by rewrite Hrows.
Qed.

Lemma transition_withNames mark names state r c :
  length names = length (participants state) →
  transition mark (withNames names state) r c
  = effectWithNames names <$> transition mark state r c.
Proof.
  intros Hlen. unfold transition.
  rewrite findNextActive_withNames by done. simpl.
  case_bool_decide; [done|].
  destruct (findNextActive state r c) as [[cell|]|]; reflexivity.
Qed.

(** X21.  The engine does not look at names.  Replacing the participants'
    names by as many other names changes no cell's rendering, and each of
    [markDone], [markDead] and [revive] then does what it did, the saved
    state carrying the new names. *)
Theorem names_do_not_matter (names : list string) (state : State)
    (rowIndex colIndex : Z) :
  length names = length (participants state) →
  renderCell (withNames names state) rowIndex colIndex
  = renderCell state rowIndex colIndex
  ∧ markDone (withNames names state) rowIndex colIndex
    = effectWithNames names <$> markDone state rowIndex colIndex
  ∧ markDead (withNames names state) rowIndex colIndex
    = effectWithNames names <$> markDead state rowIndex colIndex
  ∧ revive (withNames names state) rowIndex colIndex
    = effectWithNames names <$> revive state rowIndex colIndex.
Proof.
  intros Hlen. split; [reflexivity|].
  unfold markDone, markDead, revive.
  split_and!; by rewrite transition_withNames.
Qed.

Lemma names_do_not_matter_witness :
  markDone (withNames ["Orc"; "Elf"] twoPlayers) 0 0
  = effectWithNames ["Orc"; "Elf"] <$> markDone twoPlayers 0 0.
Proof.
  apply (names_do_not_matter ["Orc"; "Elf"] twoPlayers 0 0). reflexivity.
Defined.
